(** * A JSON-file key-value store: [database.py]

    Shallow embedding of the [Database] class and of the parts of the
    Python runtime it stands on:

    - Python [str] as a sequence of code points;
    - the [json] module's encoder (as called by [_save_data]:
      [indent=4], [ensure_ascii=False]) and decoder;
    - the UTF-8 codec of the text files opened by the class;
    - a file system holding bytes, with the failures of its calls given
      by the caller of the model;
    - the methods of [Database] in an error monad over that world;
    - a heap of objects with identity, for what [dict.copy] shares.

    Python's [float] is kept abstract: the development is parametric in
    the type of floats, in [float()] on a literal and in the encoder's
    [floatstr].  The interpreter's resource limits (recursion depth,
    digits of an [int] literal, memory) are not part of the model, nor is
    the translation of line ends by text files, which the decoder cannot
    observe: it takes a carriage return for what it takes a line feed,
    white space outside a string and an error inside one. *)

From Stdlib Require Import ZArith Lia Ascii String DecimalZ DecimalPos DecimalFacts.
From stdpp Require Import base option list gmap strings.

Local Open Scope N_scope.
Set Warnings "-register-all".

(** ** Text *)

(** A Python [str]: code points, surrogates included. *)
Definition str := list N.

(** The text of an ASCII literal. *)
Definition lit (s : string) : str :=
  map N_of_ascii (list_ascii_of_string s).

Definition QUOTE : N := 34.
Definition BACKSLASH : N := 92.

Definition is_digit (c : N) : bool := (48 <=? c) && (c <=? 57).

(** [WHITESPACE] of [json.decoder]: space, tab, line feed, carriage return. *)
Definition is_whitespace (c : N) : bool :=
  (c =? 32) || (c =? 9) || (c =? 10) || (c =? 13).

Fixpoint skip_whitespace (s : str) : str :=
  match s with
  | c :: s' => if is_whitespace c then skip_whitespace s' else s
  | [] => []
  end.

(** [s.startswith(p)], giving what follows the prefix. *)
Fixpoint strip_prefix (p s : str) : option str :=
  match p, s with
  | [], _ => Some s
  | a :: p', b :: s' => if a =? b then strip_prefix p' s' else None
  | _ :: _, [] => None
  end.

(** [needle in haystack] on [str]. *)
Fixpoint str_contains (needle haystack : str) : bool :=
  match strip_prefix needle haystack with
  | Some _ => true
  | None => match haystack with
            | [] => false
            | _ :: h => str_contains needle h
            end
  end.

(** ** Decimal integers: [int.__repr__] and [int(literal)] *)

Fixpoint uint_str (d : Decimal.uint) : str :=
  match d with
  | Decimal.Nil => []
  | Decimal.D0 d => 48 :: uint_str d
  | Decimal.D1 d => 49 :: uint_str d
  | Decimal.D2 d => 50 :: uint_str d
  | Decimal.D3 d => 51 :: uint_str d
  | Decimal.D4 d => 52 :: uint_str d
  | Decimal.D5 d => 53 :: uint_str d
  | Decimal.D6 d => 54 :: uint_str d
  | Decimal.D7 d => 55 :: uint_str d
  | Decimal.D8 d => 56 :: uint_str d
  | Decimal.D9 d => 57 :: uint_str d
  end.

Definition int_repr (n : Z) : str :=
  match Z.to_int n with
  | Decimal.Pos d => uint_str d
  | Decimal.Neg d => 45 :: uint_str d
  end.

Definition digit_cons (c : N) (d : Decimal.uint) : Decimal.uint :=
  if c =? 48 then Decimal.D0 d else
  if c =? 49 then Decimal.D1 d else
  if c =? 50 then Decimal.D2 d else
  if c =? 51 then Decimal.D3 d else
  if c =? 52 then Decimal.D4 d else
  if c =? 53 then Decimal.D5 d else
  if c =? 54 then Decimal.D6 d else
  if c =? 55 then Decimal.D7 d else
  if c =? 56 then Decimal.D8 d else Decimal.D9 d.

(** The digits of a run of decimal digits. *)
Fixpoint uint_of_digits (s : str) : Decimal.uint :=
  match s with
  | [] => Decimal.Nil
  | c :: s' => digit_cons c (uint_of_digits s')
  end.

(** The longest run of digits at the head of [s], and what follows it. *)
Fixpoint span_digits (s : str) : str * str :=
  match s with
  | c :: s' =>
      if is_digit c then let '(ds, r) := span_digits s' in (c :: ds, r)
      else ([], s)
  | [] => ([], [])
  end.

(** [int(literal)] for a literal made of an optional sign and digits. *)
Definition int_of_literal (s : str) : Z :=
  match s with
  | c :: s' => if c =? 45 then (- Z.of_uint (uint_of_digits s'))%Z
               else Z.of_uint (uint_of_digits s)
  | [] => 0%Z
  end.

(** ** The UTF-8 codec of text files *)

Definition is_surrogate (c : N) : bool := (55296 <=? c) && (c <=? 57343).

(** The bytes of one code point; [None] where the codec raises
    [UnicodeEncodeError] (a surrogate) or the number is no code point. *)
Definition utf8_encode_char (c : N) : option (list N) :=
  if c <? 128 then Some [c]
  else if c <? 2048 then Some [192 + c / 64; 128 + c mod 64]
  else if c <? 65536 then
    if is_surrogate c then None
    else Some [224 + c / 4096; 128 + (c / 64) mod 64; 128 + c mod 64]
  else if c <? 1114112 then
    Some [240 + c / 262144; 128 + (c / 4096) mod 64;
          128 + (c / 64) mod 64; 128 + c mod 64]
  else None.

Fixpoint utf8_encode (s : str) : option (list N) :=
  match s with
  | [] => Some []
  | c :: s' =>
      match utf8_encode_char c, utf8_encode s' with
      | Some bs, Some bs' => Some (bs ++ bs')
      | _, _ => None
      end
  end.

Definition is_continuation (b : N) : bool := (128 <=? b) && (b <=? 191).

Definition decode_cons (c : N) (r : option str) : option str :=
  match r with
  | Some s => Some (c :: s)
  | None => None
  end.

(** The strict decoder; [None] is [UnicodeDecodeError]: a stray or
    missing continuation byte, an overlong form, a surrogate, a value
    above U+10FFFF. *)
Fixpoint utf8_decode (bs : list N) : option str :=
  match bs with
  | [] => Some []
  | b0 :: t =>
      if b0 <? 128 then decode_cons b0 (utf8_decode t)
      else if (194 <=? b0) && (b0 <=? 223) then
        match t with
        | b1 :: t1 =>
            if is_continuation b1 then
              decode_cons ((b0 - 192) * 64 + (b1 - 128)) (utf8_decode t1)
            else None
        | _ => None
        end
      else if (224 <=? b0) && (b0 <=? 239) then
        match t with
        | b1 :: b2 :: t2 =>
            let c := (b0 - 224) * 4096 + (b1 - 128) * 64 + (b2 - 128) in
            if is_continuation b1 && is_continuation b2
               && (2048 <=? c) && negb (is_surrogate c)
            then decode_cons c (utf8_decode t2)
            else None
        | _ => None
        end
      else if (240 <=? b0) && (b0 <=? 244) then
        match t with
        | b1 :: b2 :: b3 :: t3 =>
            let c := (b0 - 240) * 262144 + (b1 - 128) * 4096
                     + (b2 - 128) * 64 + (b3 - 128) in
            if is_continuation b1 && is_continuation b2 && is_continuation b3
               && (65536 <=? c) && (c <? 1114112)
            then decode_cons c (utf8_decode t3)
            else None
        | _ => None
        end
      else None
  end.

(** ** Paths *)

(** A [pathlib.Path], as the text of the normalised path. *)
Definition Path := string.

Definition slash : ascii := "/"%char.
Definition dot : ascii := "."%char.

(** The run of characters before the first [sep], and what follows from
    [sep] on. *)
Fixpoint break_at (sep : ascii) (l : list ascii) : list ascii * list ascii :=
  match l with
  | [] => ([], [])
  | a :: l' =>
      if Ascii.eqb a sep then ([], l)
      else let '(before, rest) := break_at sep l' in (a :: before, rest)
  end.

(** [Path.with_suffix]: the last suffix of the final component is
    replaced, or [suffix] is added when there is none.  A suffix starts
    at the last dot of the name when that dot is neither its first nor
    its last character.  [None] is the [ValueError] for an empty name. *)
Definition with_suffix (p : Path) (suffix : string) : option Path :=
  let '(name_rev, parent_rev) :=
    break_at slash (rev (list_ascii_of_string p)) in
  match name_rev with
  | [] => None
  | _ :: _ =>
      let '(ext_rev, stem_dot_rev) := break_at dot name_rev in
      let stem_rev :=
        match ext_rev, stem_dot_rev with
        | _ :: _, _ :: c :: stem => c :: stem
        | _, _ => name_rev
        end in
      Some (string_of_list_ascii (rev parent_rev ++ rev stem_rev)
            ++ suffix)%string
  end.

(** ** Exceptions and the file system *)

Inductive os_error : Type :=
  ENOENT | EACCES | EEXIST | EISDIR | ENOTDIR | ENOSPC | EROFS | EIO.

(** [OSError errno] is what a system call raises; its subclass
    [FileNotFoundError] is [OSError ENOENT].  [IOError p e] is the
    exception of [raise IOError(f"Failed to save data to {p}: {e}")]
    raised while [e] is handled, so that [e] is its context; [IOError]
    is a name of [OSError]. *)
Inductive exception : Type :=
  | OSError (errno : os_error)
  | IOError (file_path : Path) (context : exception)
  | JSONDecodeError
  | KeyError
  | UnicodeDecodeError
  | UnicodeEncodeError
  | RecursionError
  | ValueError
  | TypeError
  | AttributeError.

Definition is_FileNotFoundError (e : exception) : bool :=
  match e with OSError ENOENT => true | _ => false end.

Definition is_JSONDecodeError (e : exception) : bool :=
  match e with JSONDecodeError => true | _ => false end.

(** [except IOError]: every [OSError]. *)
Definition is_IOError (e : exception) : bool :=
  match e with OSError _ | IOError _ _ => true | _ => false end.

Inductive syscall : Type :=
  | Mkdir (p : Path)
  | OpenRead (p : Path)
  | OpenWrite (p : Path)
  | Replace (src dst : Path).

(** The regular files with their bytes, the calls made so far (oldest
    first) and the lines printed. *)
Record world : Type := World {
  files : gmap Path (list N);
  calls : list syscall;
  stdout : list string }.

(** What the outside decides: which system call fails and with what, and
    how many bytes reach a file that the disk stops taking. *)
Record environment : Type := Environment {
  mkdir_error : option os_error;
  read_error : option os_error;
  open_write_error : option os_error;
  write_error : option os_error;
  flushed : nat;
  replace_error : option os_error }.

Definition no_fault : environment :=
  Environment None None None None 0 None.

Inductive outcome (A : Type) : Type :=
  | Return (a : A)
  | Raise (e : exception).
Arguments Return {A} a.
Arguments Raise {A} e.

(** Computations that return or raise, over a state. *)
Definition M (S A : Type) : Type := S -> outcome A * S.

Definition ret {S A} (a : A) : M S A := fun s => (Return a, s).
Definition raise {S A} (e : exception) : M S A := fun s => (Raise e, s).
Definition bind {S A B} (m : M S A) (k : A -> M S B) : M S B :=
  fun s => match m s with
           | (Return a, s') => k a s'
           | (Raise e, s') => (Raise e, s')
           end.
Definition of_outcome {S A} (o : outcome A) : M S A := fun s => (o, s).

(** [try: m  except ...: handler]: [handler e] is the body of the first
    clause that matches [e], if one does. *)
Definition try_except {S A} (m : M S A) (handler : exception -> option (M S A))
    : M S A :=
  fun s => match m s with
           | (Return a, s') => (Return a, s')
           | (Raise e, s') =>
               match handler e with
               | Some h => h s'
               | None => (Raise e, s')
               end
           end.

Notation "x <- m ;; k" := (bind m (fun x => k))
  (at level 100, m at next level, right associativity).
Notation "m ;;; k" := (bind m (fun _ => k))
  (at level 100, right associativity).

Definition log (c : syscall) (w : world) : world :=
  World (files w) (calls w ++ [c]) (stdout w).

Definition set_file (p : Path) (bytes : list N) (w : world) : world :=
  World (<[p := bytes]> (files w)) (calls w) (stdout w).

(** [Path.parent]. *)
Definition parent (p : Path) : Path :=
  let '(_, parent_rev) := break_at slash (rev (list_ascii_of_string p)) in
  match parent_rev with
  | [] => "."
  | [_] => "/"
  | _ :: dir => string_of_list_ascii (rev dir)
  end.

(** [p.mkdir(parents=True, exist_ok=True)].  Directories are not kept in
    the world: the call either fails as the environment says or returns. *)
Definition mkdir (env : environment) (p : Path) : M world unit :=
  fun w =>
    match mkdir_error env with
    | Some e => (Raise (OSError e), log (Mkdir p) w)
    | None => (Return tt, log (Mkdir p) w)
    end.

(** [with open(p, "r", encoding="utf-8") as file: file.read()], before
    decoding. *)
Definition read_bytes (env : environment) (p : Path) : M world (list N) :=
  fun w =>
    match read_error env with
    | Some e => (Raise (OSError e), log (OpenRead p) w)
    | None =>
        match files w !! p with
        | Some bytes => (Return bytes, log (OpenRead p) w)
        | None => (Raise (OSError ENOENT), log (OpenRead p) w)
        end
    end.

(** [fp.write(chunk)] for the chunks in turn, on a text file: the bytes
    handed to the file, and whether every chunk was encoded.  A chunk
    that cannot be encoded raises [UnicodeEncodeError] in [write] and
    nothing of it, nor of the chunks after it, is written. *)
Fixpoint write_chunks (chunks : list str) : list N * bool :=
  match chunks with
  | [] => ([], true)
  | chunk :: chunks' =>
      match utf8_encode chunk with
      | None => ([], false)
      | Some bs => let '(bs', encoded) := write_chunks chunks' in
                   (bs ++ bs', encoded)
      end
  end.

(** [with open(p, "w", encoding="utf-8") as file:] with a
    [file.write(chunk)] for each of [chunks].  Opening truncates.  The
    file is closed when the block is left, also by an exception, and
    what was handed to the file is written by then: when there are bytes
    to write and the disk refuses them, the [OSError] is what leaves the
    block, whether or not a chunk had failed to encode, and the file
    keeps the first [flushed] bytes. *)
Definition write_text (env : environment) (p : Path) (chunks : list str)
    : M world unit :=
  fun w =>
    match open_write_error env with
    | Some e => (Raise (OSError e), log (OpenWrite p) w)
    | None =>
        let '(bytes, encoded) := write_chunks chunks in
        match write_error env, bytes with
        | Some e, _ :: _ =>
            (Raise (OSError e),
             set_file p (take (flushed env) bytes) (log (OpenWrite p) w))
        | _, _ =>
            (if encoded then Return tt else Raise UnicodeEncodeError,
             set_file p bytes (log (OpenWrite p) w))
        end
    end.

(** [src.replace(dst)]: in one step [dst] names the file [src] named. *)
Definition replace (env : environment) (src dst : Path) : M world unit :=
  fun w =>
    match replace_error env with
    | Some e => (Raise (OSError e), log (Replace src dst) w)
    | None =>
        match files w !! src with
        | None => (Raise (OSError ENOENT), log (Replace src dst) w)
        | Some bytes =>
            (Return tt,
             World (<[dst := bytes]> (delete src (files w)))
                   (calls w ++ [Replace src dst]) (stdout w))
        end
    end.

Definition print (line : string) : M world unit :=
  fun w => (Return tt, World (files w) (calls w) (stdout w ++ [line])).

(** The outcome of scanning a prefix of the text: a result and the text
    after it, [JSONDecodeError], or the recursion budget of the model
    used up (which [loads_terminates] shows not to happen). *)
Inductive scan (A : Type) : Type :=
  | Scanned (a : A) (rest : str)
  | Malformed
  | Exhausted.
Arguments Scanned {A} a rest.
Arguments Malformed {A}.
Arguments Exhausted {A}.

(** ** JSON values, [json.dump] and [json.load] *)

(** What the development asks of Python's [float]: the decoder's
    [parse_float] on a literal and [parse_constant] on [NaN], [Infinity]
    and [-Infinity], and the encoder's [floatstr]. *)
Class Float (float : Type) : Type := {
  parse_float : str -> float;
  parse_constant : str -> float;
  floatstr : float -> str }.

Section Model.

Context {float : Type} `{!Float float}.

(** What [json] reads and writes.  A [dict] keeps its keys in insertion
    order; its keys are [str]. *)
Inductive value : Type :=
  | VNone
  | VBool (b : bool)
  | VInt (n : Z)
  | VFloat (f : float)
  | VStr (s : str)
  | VList (items : list value)
  | VDict (items : list (str * value)).

(** *** [dict] operations *)

Definition dict := list (str * value).

Fixpoint dict_get (d : dict) (key : str) : option value :=
  match d with
  | [] => None
  | (k, v) :: d' => if decide (k = key) then Some v else dict_get d' key
  end.

Definition dict_contains (d : dict) (key : str) : bool :=
  match dict_get d key with Some _ => true | None => false end.

(** [d[key] = v]: a key already there keeps its place. *)
Fixpoint dict_setitem (d : dict) (key : str) (v : value) : dict :=
  match d with
  | [] => [(key, v)]
  | (k, v') :: d' =>
      if decide (k = key) then (k, v) :: d'
      else (k, v') :: dict_setitem d' key v
  end.

(** [del d[key]] for a key that is there. *)
Fixpoint dict_delitem (d : dict) (key : str) : dict :=
  match d with
  | [] => []
  | (k, v) :: d' =>
      if decide (k = key) then d' else (k, v) :: dict_delitem d' key
  end.

(** [d.update(updates)]: the entries of [updates] are stored in turn. *)
Definition dict_update (d updates : dict) : dict :=
  fold_left (fun acc kv => dict_setitem acc kv.1 kv.2) updates d.

(** *** The encoder: [json.dump(obj, fp, indent=4, ensure_ascii=False)] *)

Definition hex_digit (n : N) : N := if n <? 10 then 48 + n else 87 + n.

(** [ESCAPE_DCT] of [json.encoder], on the characters [ESCAPE] matches. *)
Definition escape (c : N) : str :=
  if c =? QUOTE then [BACKSLASH; QUOTE]
  else if c =? BACKSLASH then [BACKSLASH; BACKSLASH]
  else if c =? 10 then lit "\n"
  else if c =? 13 then lit "\r"
  else if c =? 9 then lit "\t"
  else if c =? 8 then lit "\b"
  else if c =? 12 then lit "\f"
  else if c <? 32 then
    lit "\u00" ++ [hex_digit (c / 16); hex_digit (c mod 16)]
  else [c].

Definition encode_basestring (s : str) : str :=
  QUOTE :: flat_map escape s ++ [QUOTE].

Definition newline_indent (level : nat) : str :=
  10 :: repeat 32 (4 * level)%nat.

Definition item_separator (level : nat) : str :=
  lit "," ++ newline_indent level.

Definition iterencode_list (enc : value -> str) (level : nat)
    (lst : list value) : str :=
  match lst with
  | [] => lit "[]"
  | x :: xs =>
      lit "[" ++ newline_indent (S level) ++ enc x
      ++ flat_map (fun y => item_separator (S level) ++ enc y) xs
      ++ newline_indent level ++ lit "]"
  end.

Definition encode_member (enc : value -> str) (kv : str * value) : str :=
  encode_basestring kv.1 ++ lit ": " ++ enc kv.2.

Definition iterencode_dict (enc : value -> str) (level : nat)
    (dct : dict) : str :=
  match dct with
  | [] => lit "{}"
  | kv :: kvs =>
      lit "{" ++ newline_indent (S level) ++ encode_member enc kv
      ++ flat_map (fun kv' => item_separator (S level) ++ encode_member enc kv')
           kvs
      ++ newline_indent level ++ lit "}"
  end.

Fixpoint iterencode (level : nat) (o : value) : str :=
  match o with
  | VStr s => encode_basestring s
  | VNone => lit "null"
  | VBool true => lit "true"
  | VBool false => lit "false"
  | VInt n => int_repr n
  | VFloat f => floatstr f
  | VList lst => iterencode_list (iterencode (S level)) level lst
  | VDict dct => iterencode_dict (iterencode (S level)) level dct
  end.

(** The text [json.dump] writes for [obj]. *)
Definition dumps (obj : value) : str := iterencode 0 obj.

(** The chunks [json.dump] passes to [fp.write] one by one, as
    [_make_iterencode] yields them.  In a list, an item that is no
    container comes in one chunk with the bracket or separator before
    it; in a dict the brace, the indentation, the separators, the keys
    and the values are chunks of their own. *)
Definition is_container (o : value) : bool :=
  match o with
  | VList _ | VDict _ => true
  | _ => false
  end.

Definition item_chunks (chunks : value -> list str) (enc : value -> str)
    (buf : str) (o : value) : list str :=
  if is_container o then buf :: chunks o else [buf ++ enc o].

Definition list_chunks (chunks : value -> list str) (enc : value -> str)
    (level : nat) (lst : list value) : list str :=
  match lst with
  | [] => [lit "[]"]
  | x :: xs =>
      item_chunks chunks enc (lit "[" ++ newline_indent (S level)) x
      ++ flat_map (item_chunks chunks enc (item_separator (S level))) xs
      ++ [newline_indent level; lit "]"]
  end.

Definition member_chunks (chunks : value -> list str) (enc : value -> str)
    (kv : str * value) : list str :=
  encode_basestring kv.1 :: lit ": "
  :: (if is_container kv.2 then chunks kv.2 else [enc kv.2]).

Definition dict_chunks (chunks : value -> list str) (enc : value -> str)
    (level : nat) (dct : dict) : list str :=
  match dct with
  | [] => [lit "{}"]
  | kv :: kvs =>
      lit "{" :: newline_indent (S level) :: member_chunks chunks enc kv
      ++ flat_map (fun kv' => item_separator (S level)
                              :: member_chunks chunks enc kv') kvs
      ++ [newline_indent level; lit "}"]
  end.

Fixpoint iterencode_chunks (level : nat) (o : value) : list str :=
  match o with
  | VList lst =>
      list_chunks (iterencode_chunks (S level)) (iterencode (S level)) level lst
  | VDict dct =>
      dict_chunks (iterencode_chunks (S level)) (iterencode (S level)) level dct
  | _ => [iterencode level o]
  end.

(** *** The decoder: [json.load(fp)] *)

Definition hex_value (c : N) : option N :=
  if is_digit c then Some (c - 48)
  else if (97 <=? c) && (c <=? 102) then Some (c - 87)
  else if (65 <=? c) && (c <=? 70) then Some (c - 55)
  else None.

Definition decode_uXXXX (h1 h2 h3 h4 : N) : option N :=
  match hex_value h1, hex_value h2, hex_value h3, hex_value h4 with
  | Some a, Some b, Some c, Some d => Some (((a * 16 + b) * 16 + c) * 16 + d)
  | _, _, _, _ => None
  end.

(** [BACKSLASH] of [json.decoder]. *)
Definition unescape (c : N) : option N :=
  if c =? QUOTE then Some QUOTE
  else if c =? BACKSLASH then Some BACKSLASH
  else if c =? 47 then Some 47
  else if c =? 98 then Some 8
  else if c =? 102 then Some 12
  else if c =? 110 then Some 10
  else if c =? 114 then Some 13
  else if c =? 116 then Some 9
  else None.

Definition is_high_surrogate (c : N) : bool := (55296 <=? c) && (c <=? 56319).
Definition is_low_surrogate (c : N) : bool := (56320 <=? c) && (c <=? 57343).
Definition join_surrogates (hi lo : N) : N :=
  65536 + N.lor (N.shiftl (hi - 55296) 10) (lo - 56320).

Definition scan_cons (c : N) (r : option (str * str)) : option (str * str) :=
  match r with
  | Some (s, rest) => Some (c :: s, rest)
  | None => None
  end.

(** [scanstring] in strict mode, from just after the opening quote:
    the string and the text after its closing quote. *)
Fixpoint scanstring (s : str) : option (str * str) :=
  match s with
  | [] => None
  | c :: t =>
      if c =? QUOTE then Some ([], t)
      else if c =? BACKSLASH then
        match t with
        | [] => None
        | e :: t1 =>
            if e =? 117 then
              match t1 with
              | h1 :: h2 :: h3 :: h4 :: t2 =>
                  match decode_uXXXX h1 h2 h3 h4 with
                  | None => None
                  | Some uni =>
                      if is_high_surrogate uni then
                        match t2 with
                        | b :: u :: g1 :: g2 :: g3 :: g4 :: t3 =>
                            if (b =? BACKSLASH) && (u =? 117) then
                              match decode_uXXXX g1 g2 g3 g4 with
                              | None => None
                              | Some uni2 =>
                                  if is_low_surrogate uni2
                                  then scan_cons (join_surrogates uni uni2)
                                         (scanstring t3)
                                  else scan_cons uni (scanstring t2)
                              end
                            else scan_cons uni (scanstring t2)
                        | _ => scan_cons uni (scanstring t2)
                        end
                      else scan_cons uni (scanstring t2)
                  end
              | _ => None
              end
            else
              match unescape e with
              | Some ch => scan_cons ch (scanstring t1)
              | None => None
              end
        end
      else if c <? 32 then None
      else scan_cons c (scanstring t)
  end.

(** [NUMBER_RE]: the integer part of a number, without its sign. *)
Definition match_integer (s : str) : option (str * str) :=
  match s with
  | c :: t =>
      if c =? 48 then Some ([c], t)
      else if is_digit c then
        let '(ds, r) := span_digits t in Some (c :: ds, r)
      else None
  | [] => None
  end.

(** The optional fraction: a point and at least one digit. *)
Definition match_frac (s : str) : str * str :=
  match s with
  | p :: d :: t =>
      if (p =? 46) && is_digit d then
        let '(ds, r) := span_digits t in (p :: d :: ds, r)
      else ([], s)
  | _ => ([], s)
  end.

(** The optional exponent: [e] or [E], an optional sign, at least one
    digit. *)
Definition match_exp (s : str) : str * str :=
  match s with
  | e :: t =>
      if (e =? 101) || (e =? 69) then
        let '(sign, t1) :=
          match t with
          | c :: t' => if (c =? 45) || (c =? 43) then ([c], t') else ([], t)
          | [] => ([], t)
          end in
        let '(ds, r) := span_digits t1 in
        match ds with
        | [] => ([], s)
        | _ :: _ => (e :: sign ++ ds, r)
        end
      else ([], s)
  | [] => ([], s)
  end.

Definition match_number (s : str) : option (value * str) :=
  let '(sign, s1) :=
    match s with
    | c :: t => if c =? 45 then ([c], t) else ([], s)
    | [] => ([], s)
    end in
  match match_integer s1 with
  | None => None
  | Some (integer, s2) =>
      let '(frac, s3) := match_frac s2 in
      let '(exp, s4) := match_exp s3 in
      match frac, exp with
      | [], [] => Some (VInt (int_of_literal (sign ++ integer)), s4)
      | _, _ => Some (VFloat (parse_float (sign ++ integer ++ frac ++ exp)), s4)
      end
  end.

(** The named constants of [scan_once], tried before a number. *)
Definition match_constant (s : str) : option (value * str) :=
  match strip_prefix (lit "null") s with
  | Some r => Some (VNone, r)
  | None =>
  match strip_prefix (lit "true") s with
  | Some r => Some (VBool true, r)
  | None =>
  match strip_prefix (lit "false") s with
  | Some r => Some (VBool false, r)
  | None =>
  match strip_prefix (lit "NaN") s with
  | Some r => Some (VFloat (parse_constant (lit "NaN")), r)
  | None =>
  match strip_prefix (lit "Infinity") s with
  | Some r => Some (VFloat (parse_constant (lit "Infinity")), r)
  | None =>
  match strip_prefix (lit "-Infinity") s with
  | Some r => Some (VFloat (parse_constant (lit "-Infinity")), r)
  | None => None
  end end end end end end.

Definition of_option {A} (r : option (A * str)) : scan A :=
  match r with
  | Some (a, rest) => Scanned a rest
  | None => Malformed
  end.

(** [scan_once] with [JSONArray] and [JSONObject]; [fuel] bounds the
    calls in flight. *)
Fixpoint scan_once (fuel : nat) (s : str) : scan value :=
  match fuel with
  | O => Exhausted
  | S fuel' =>
      match s with
      | [] => Malformed
      | c :: t =>
          if c =? QUOTE then
            match scanstring t with
            | Some (x, rest) => Scanned (VStr x) rest
            | None => Malformed
            end
          else if c =? 123 then JSONObject fuel' (skip_whitespace t)
          else if c =? 91 then JSONArray fuel' (skip_whitespace t)
          else
            match match_constant s with
            | Some (v, rest) => Scanned v rest
            | None => of_option (match_number s)
            end
      end
  end

with JSONArray (fuel : nat) (s : str) : scan value :=
  match fuel with
  | O => Exhausted
  | S fuel' =>
      match s with
      | c :: t =>
          if c =? 93 then Scanned (VList []) t
          else array_items fuel' s []
      | [] => array_items fuel' s []
      end
  end

with array_items (fuel : nat) (s : str) (acc : list value) : scan value :=
  match fuel with
  | O => Exhausted
  | S fuel' =>
      match scan_once fuel' s with
      | Scanned v rest =>
          match skip_whitespace rest with
          | c :: t =>
              if c =? 93 then Scanned (VList (rev (v :: acc))) t
              else if c =? 44 then
                array_items fuel' (skip_whitespace t) (v :: acc)
              else Malformed
          | [] => Malformed
          end
      | Malformed => Malformed
      | Exhausted => Exhausted
      end
  end

with JSONObject (fuel : nat) (s : str) : scan value :=
  match fuel with
  | O => Exhausted
  | S fuel' =>
      match s with
      | c :: t =>
          if c =? 125 then Scanned (VDict []) t
          else object_members fuel' s []
      | [] => object_members fuel' s []
      end
  end

with object_members (fuel : nat) (s : str) (acc : dict) : scan value :=
  match fuel with
  | O => Exhausted
  | S fuel' =>
      match s with
      | q :: t =>
          if q =? QUOTE then
            match scanstring t with
            | None => Malformed
            | Some (key, rest) =>
                match skip_whitespace rest with
                | c :: t1 =>
                    if c =? 58 then
                      match scan_once fuel' (skip_whitespace t1) with
                      | Scanned v rest1 =>
                          match skip_whitespace rest1 with
                          | c1 :: t2 =>
                              if c1 =? 125 then
                                Scanned (VDict (dict_setitem acc key v)) t2
                              else if c1 =? 44 then
                                object_members fuel' (skip_whitespace t2)
                                  (dict_setitem acc key v)
                              else Malformed
                          | [] => Malformed
                          end
                      | Malformed => Malformed
                      | Exhausted => Exhausted
                      end
                    else Malformed
                | [] => Malformed
                end
            end
          else Malformed
      | [] => Malformed
      end
  end.

(** [JSONDecoder.decode]: one document, white space around it, nothing
    else.  No call of the scanner runs longer than three steps for a
    character it reads, whence the budget. *)
Definition decode (s : str) : scan value :=
  let s0 := skip_whitespace s in
  match scan_once (3 * length s0 + 1) s0 with
  | Scanned v rest =>
      match skip_whitespace rest with
      | [] => Scanned v []
      | _ :: _ => Malformed
      end
  | Malformed => Malformed
  | Exhausted => Exhausted
  end.


(** *** What reads back *)

(** Where a value ends in what the encoder writes: at a comma, at a
    line end or at the end of the text. *)
Definition delimited (rest : str) : Prop :=
  match rest with
  | [] => True
  | c :: _ => c = 44 \/ c = 10
  end.

(** What [floatstr] writes for [f] is read as [f]. *)
Definition float_reads_back (f : float) : Prop :=
  forall fuel rest, delimited rest ->
    scan_once (S fuel) (floatstr f ++ rest) = Scanned (VFloat f) rest.

(** The JSON-representable values: no [dict] has a key twice, as in
    Python, and every float reads back. *)
Inductive representable : value -> Prop :=
  | representable_None : representable VNone
  | representable_bool b : representable (VBool b)
  | representable_int n : representable (VInt n)
  | representable_float f : float_reads_back f -> representable (VFloat f)
  | representable_str s : representable (VStr s)
  | representable_list l :
      Forall representable l -> representable (VList l)
  | representable_dict d :
      NoDup d.*1 -> Forall (fun kv => representable kv.2) d ->
      representable (VDict d).

(** A scan that returns leaves less text than it was given. *)
Definition decreasing {A} (r : scan A) (s : str) : Prop :=
  match r with
  | Scanned _ rest => (length rest < length s)%nat
  | _ => True
  end.

(** With budget enough, [s] scans as [v] followed by [rest]. *)
Definition scans_to (s : str) (v : value) (rest : str) : Prop :=
  exists fuel0, forall fuel, (fuel0 <= fuel)%nat ->
    scan_once fuel s = Scanned v rest.

(** The text after the first item of an encoded list, and after the
    first member of an encoded dict, when [rest] follows it. *)
Definition list_tail (level : nat) (rest : str) (xs : list value) : str :=
  flat_map (fun y => item_separator (S level) ++ iterencode (S level) y) xs
  ++ newline_indent level ++ lit "]" ++ rest.

Definition dict_tail (level : nat) (rest : str) (kvs : dict) : str :=
  flat_map (fun kv => item_separator (S level)
                      ++ encode_member (iterencode (S level)) kv) kvs
  ++ newline_indent level ++ lit "}" ++ rest.

(** [json.load(file)]: read, decode the bytes, decode the document. *)
Definition json_load (bytes : list N) : outcome value :=
  match utf8_decode bytes with
  | None => Raise UnicodeDecodeError
  | Some text =>
      match decode text with
      | Scanned v _ => Return v
      | Malformed => Raise JSONDecodeError
      | Exhausted => Raise RecursionError
      end
  end.

(** ** The class [Database] *)

(** The attributes of an instance ([_lock] guards threads, of which the
    model has one).  [data] is whatever [load_data] returned. *)
Record Database : Type := mkDatabase {
  file_path : Path;
  data : value }.

(** A method runs on the instance and the world. *)
Record state : Type := State {
  self : Database;
  os : world }.

Definition lift {A} (m : M world A) : M state A :=
  fun st => let '(o, w) := m (os st) in (o, State (self st) w).

Definition get_self : M state Database := fun st => (Return (self st), st).

Definition set_data (v : value) : M state unit :=
  fun st => (Return tt, State (mkDatabase (file_path (self st)) v) (os st)).

Definition _ensure_directory_exists (env : environment) (file_path : Path)
    : M world unit :=
  mkdir env (parent file_path).

Definition warning (file_path : Path) : string :=
  ("Warning: Invalid JSON file at " ++ file_path
   ++ ". Starting with empty data.")%string.

Definition load_data (env : environment) (file_path : Path) : M world value :=
  try_except
    (bytes <- read_bytes env file_path ;;
     of_outcome (json_load bytes))
    (fun e =>
       if is_FileNotFoundError e then Some (ret (VDict []))
       else if is_JSONDecodeError e then
         Some (print (warning file_path) ;;; ret (VDict []))
       else None).

Definition __init__ (env : environment) (file_path : Path) : M world Database :=
  _ensure_directory_exists env file_path ;;;
  data <- load_data env file_path ;;
  ret (mkDatabase file_path data).

Definition _save_data (env : environment) : M state unit :=
  db <- get_self ;;
  try_except
    (temp_path <- match with_suffix (file_path db) ".tmp" with
                  | Some p => ret p
                  | None => raise ValueError
                  end ;;
     lift (write_text env temp_path (iterencode_chunks 0 (data db))) ;;;
     lift (replace env temp_path (file_path db)))
    (fun e =>
       if is_IOError e then Some (raise (IOError (file_path db) e))
       else None).

(** [container.get(key, default)]: only a [dict] has the method. *)
Definition value_get (container : value) (key : str) (default : value)
    : outcome value :=
  match container with
  | VDict d => Return (match dict_get d key with
                       | Some v => v
                       | None => default
                       end)
  | _ => Raise AttributeError
  end.

(** [container[key] = v] with a [str] key. *)
Definition value_setitem (container : value) (key : str) (v : value)
    : outcome value :=
  match container with
  | VDict d => Return (VDict (dict_setitem d key v))
  | _ => Raise TypeError
  end.

(** [key in container] with a [str] key: a key of a [dict], an element
    of a [list], a substring of a [str]. *)
Definition value_contains (container : value) (key : str) : outcome bool :=
  match container with
  | VDict d => Return (dict_contains d key)
  | VList l =>
      Return (existsb (fun x => match x with
                                | VStr s => bool_decide (s = key)
                                | _ => false
                                end) l)
  | VStr s => Return (str_contains key s)
  | _ => Raise TypeError
  end.

(** [del container[key]] with a [str] key that [container] has. *)
Definition value_delitem (container : value) (key : str) : outcome value :=
  match container with
  | VDict d => Return (VDict (dict_delitem d key))
  | _ => Raise TypeError
  end.

(** [container.clear()]. *)
Definition value_clear (container : value) : outcome value :=
  match container with
  | VDict _ => Return (VDict [])
  | VList _ => Return (VList [])
  | _ => Raise AttributeError
  end.

(** [container.update(updates)]. *)
Definition value_update (container : value) (updates : dict) : outcome value :=
  match container with
  | VDict d => Return (VDict (dict_update d updates))
  | _ => Raise AttributeError
  end.

Definition get (key : str) (default : value) : M state value :=
  db <- get_self ;;
  of_outcome (value_get (data db) key default).

Definition set (env : environment) (key : str) (v : value) : M state unit :=
  db <- get_self ;;
  data' <- of_outcome (value_setitem (data db) key v) ;;
  set_data data' ;;;
  _save_data env.

Definition delete (env : environment) (key : str) : M state bool :=
  db <- get_self ;;
  found <- of_outcome (value_contains (data db) key) ;;
  if found : bool then
    data' <- of_outcome (value_delitem (data db) key) ;;
    set_data data' ;;;
    _save_data env ;;;
    ret true
  else ret false.

Definition clear (env : environment) : M state unit :=
  db <- get_self ;;
  data' <- of_outcome (value_clear (data db)) ;;
  set_data data' ;;;
  _save_data env.

Definition exists_ (key : str) : M state bool :=
  db <- get_self ;;
  of_outcome (value_contains (data db) key).

Definition update (env : environment) (updates : dict) : M state unit :=
  db <- get_self ;;
  data' <- of_outcome (value_update (data db) updates) ;;
  set_data data' ;;;
  _save_data env.

(** ** Calls in sequence, and what they are checked against *)

(** The calls that change the mapping.  [run_mutation] makes the call
    and returns what [delete] returned, and [true] for the others. *)
Inductive mutation : Type :=
  | SetCall (key : str) (v : value)
  | DeleteCall (key : str)
  | UpdateCall (updates : dict)
  | ClearCall.

Definition run_mutation (env : environment) (m : mutation) : M state bool :=
  match m with
  | SetCall key v => set env key v ;;; ret true
  | DeleteCall key => delete env key
  | UpdateCall updates => update env updates ;;; ret true
  | ClearCall => clear env ;;; ret true
  end.

Definition mutation_representable (m : mutation) : Prop :=
  match m with
  | SetCall _ v => representable v
  | UpdateCall updates => Forall (fun kv => representable kv.2) updates
  | DeleteCall _ | ClearCall => True
  end.

(** [set] called in turn with each key and value, each call in an
    environment of its own. *)
Fixpoint set_all (calls : list (environment * str * value)) : M state unit :=
  match calls with
  | [] => ret tt
  | (env, key, v) :: calls' => set env key v ;;; set_all calls'
  end.

(** The backing file holds a document that [json.load] reads as the
    mapping in memory. *)
Definition in_sync (st : state) : Prop :=
  exists bytes,
    files (os st) !! file_path (self st) = Some bytes
    /\ json_load bytes = Return (data (self st)).


(** ** Objects with identity

    The methods above take and return values by content, which is all
    that reading and writing the file can see.  What [get_all] shares
    with the instance is a matter of identity: here a [list] or a [dict]
    is a reference into a heap of objects, and its items are references
    in turn. *)

Definition address := nat.

Inductive ref : Type :=
  | RNone
  | RBool (b : bool)
  | RInt (n : Z)
  | RFloat (f : float)
  | RStr (s : str)
  | RObj (a : address).

Inductive object : Type :=
  | OList (items : list ref)
  | ODict (items : list (str * ref)).

(** The heap: the objects by address. *)
Local Abbreviation heap := (gmap address object).

(** The document a reference stands for in a heap, read to a bounded
    depth; [None] when the depth is not enough or a reference dangles. *)
Fixpoint snapshot (depth : nat) (h : heap) (r : ref) : option value :=
  match depth with
  | O => None
  | S depth' =>
      match r with
      | RNone => Some VNone
      | RBool b => Some (VBool b)
      | RInt n => Some (VInt n)
      | RFloat f => Some (VFloat f)
      | RStr s => Some (VStr s)
      | RObj a =>
          match h !! a with
          | Some (OList items) =>
              VList <$> mapM (snapshot depth' h) items
          | Some (ODict items) =>
              VDict <$> mapM (fun kv => pair kv.1 <$> snapshot depth' h kv.2)
                          items
          | None => None
          end
      end
  end.

(** [obj.copy()] of a [dict] or a [list]: a new object with the same
    items. *)
Definition copy (r : ref) : M heap ref :=
  fun h =>
    match r with
    | RObj a =>
        match h !! a with
        | Some o =>
            let a' := fresh (dom h) in
            (Return (RObj a'), <[a' := o]> h)
        | None => (Raise AttributeError, h)
        end
    | _ => (Raise AttributeError, h)
    end.

(** [get_all] on an instance whose [data] is the reference [data_ref]. *)
Definition get_all (data_ref : ref) : M heap ref :=
  copy data_ref.

(** [lst.append(x)]. *)
Definition list_append (lst x : ref) : M heap unit :=
  fun h =>
    match lst with
    | RObj a =>
        match h !! a with
        | Some (OList items) => (Return tt, <[a := OList (items ++ [x])]> h)
        | _ => (Raise AttributeError, h)
        end
    | _ => (Raise AttributeError, h)
    end.

(** [d[key]] on a [dict] object. *)
Definition getitem (d : ref) (key : str) : M heap ref :=
  fun h =>
    match d with
    | RObj a =>
        match h !! a with
        | Some (ODict items) =>
            match list_find (fun kv => kv.1 = key) items with
            | Some (_, kv) => (Return kv.2, h)
            | None => (Raise KeyError, h)
            end
        | _ => (Raise TypeError, h)
        end
    | _ => (Raise TypeError, h)
    end.

End Model.

Arguments value : clear implicits.
Arguments dict : clear implicits.
Arguments Database : clear implicits.
Arguments state : clear implicits.
Arguments ref : clear implicits.
Arguments object : clear implicits.
Arguments mutation : clear implicits.

(** A stand-in for [float] with which the model runs: a float is kept
    as the literal that denotes it. *)
#[export] Instance literal_float : Float str := {
  parse_float := id;
  parse_constant := id;
  floatstr := id }.

(** ** Instances the statements are tried on *)

Definition empty_world : world := World ∅ [] [].

Definition settings_path : Path := "storage/data/settings.json".

(** The instance [Database("storage/data/settings.json")] made where
    there is no file. *)
Definition new_store : state str :=
  State (mkDatabase settings_path (VDict [])) empty_world.

Definition theme : str := lit "theme".
Definition dark : value str := VStr (lit "dark").
Definition volume : str := lit "volume".

(** An instance whose data has two keys. *)
Definition two_keys : dict str := [(theme, dark); (volume, VInt 80)].

(** The temporary file of [settings_path]. *)
Definition settings_temp : Path := "storage/data/settings.tmp".

Definition settings_store : state str :=
  State (mkDatabase settings_path (VDict two_keys)) empty_world.

(** The world after the constructor has run where there was no file,
    and two calls of [set] on the instance it made. *)
Definition opened_world : world :=
  World ∅ [Mkdir "storage/data"; OpenRead settings_path] [].

Definition two_sets : list (environment * str * value str) :=
  [(no_fault, theme, dark); (no_fault, volume, VInt 80)].

Definition after_two_sets : state str :=
  (set_all two_sets (State (mkDatabase settings_path (VDict [])) opened_world)).2.

(** Worlds whose backing file holds text that is no JSON, a JSON list,
    and a byte that is no UTF-8. *)
Definition world_with (bytes : list N) : world :=
  World {[settings_path := bytes]} [] [].

Definition malformed_text : str := lit "{ invalid json".
Definition list_text : str := lit "[1,2]".
Definition not_utf8 : list N := [255].

Definition light_and_auto_save : dict str :=
  [(theme, VStr (lit "light")); (lit "auto_save", VBool true)].

(** A backing file named [cache.tmp], holding the empty mapping, and a
    disk that fills up four bytes into the next write. *)
Definition cache_store : state str :=
  State (mkDatabase "cache.tmp" (VDict []))
        (World {["cache.tmp" := lit "{}"]} [] []).

Definition disk_full : environment :=
  Environment None None None (Some ENOSPC) 4 None.

(** A heap where the data of an instance, at address 0, has the list at
    address 1 as the value of [recent_files]. *)
Definition recent_files : str := lit "recent_files".

Definition shared_heap : gmap address (object str) :=
  {[ 0%nat := ODict [(recent_files, RObj 1%nat)]; 1%nat := OList [] ]}.

(** [all = db.get_all(); all["recent_files"].append(1)]. *)
Definition append_through_copy : M (gmap address (object str)) unit :=
  all <- get_all (RObj 0%nat) ;;
  files <- getitem all recent_files ;;
  list_append files (RInt 1).

(** * Properties *)

(** Unfolds a call of [_save_data] down to the system calls. *)
Ltac unfold_save_data :=
  unfold _save_data, bind, get_self, try_except, lift, write_text, replace,
    ret, raise; simpl.

Section Theory.

Context {float : Type} `{!Float float}.

(** ** The decoder consumes its input and needs no more budget than it is given *)

Lemma skip_whitespace_length (s : str) :
  (length (skip_whitespace s) <= length s)%nat.
Proof.
  induction s as [|c s IH]; simpl; [lia|].
  destruct (is_whitespace c); simpl; lia.
Qed.

Lemma strip_prefix_length (p s r : str) :
  strip_prefix p s = Some r -> length s = (length p + length r)%nat.
Proof.
  revert s. induction p as [|a p IH]; intros s; simpl.
  - intros H; by simplify_eq.
  - destruct s as [|b s]; [discriminate|].
    destruct (a =? b); [|discriminate].
    intros H. simpl. by rewrite (IH _ H).
Qed.

Lemma span_digits_length (s ds r : str) :
  span_digits s = (ds, r) -> length s = (length ds + length r)%nat.
Proof.
  revert ds r. induction s as [|c s IH]; simpl; intros ds r H.
  - by inversion H.
  - destruct (is_digit c).
    + destruct (span_digits s) as [ds' r'] eqn:E. inversion H; subst.
      simpl. by rewrite (IH _ _ eq_refl).
    + by inversion H.
Qed.

Lemma scan_cons_Some c r x rest :
  scan_cons c r = Some (x, rest) ->
  exists x', r = Some (x', rest) /\ x = c :: x'.
Proof.
  destruct r as [[x' rest']|]; simpl; [|discriminate].
  intros H; inversion H; subst. eauto.
Qed.

Lemma scanstring_length_aux (n : nat) :
  forall s x rest, (length s <= n)%nat ->
    scanstring s = Some (x, rest) -> (length rest < length s)%nat.
Proof.
  induction n as [|n IH]; intros s x rest Hn H.
  - destruct s; [discriminate | simpl in Hn; lia].
  - destruct s as [|c t]; [discriminate|].
    simpl in H, Hn.
    repeat case_match; simplify_eq; simpl length in *; try lia;
      try match goal with
      | H : scan_cons _ (scanstring ?t') = Some _ |- _ =>
          apply scan_cons_Some in H; destruct H as (? & H & ?);
          apply IH in H; simpl length in *; lia
      end.
Qed.

Lemma scanstring_length s x rest :
  scanstring s = Some (x, rest) -> (length rest < length s)%nat.
Proof. by apply (scanstring_length_aux (length s)). Qed.

Lemma match_constant_length s v rest :
  match_constant s = Some (v, rest) -> (length rest < length s)%nat.
Proof.
  unfold match_constant. intros H.
  repeat case_match; simplify_eq;
    match goal with
    | H : strip_prefix _ _ = Some _ |- _ =>
        apply strip_prefix_length in H; simpl in H; lia
    end.
Qed.

Lemma match_integer_length s ds r :
  match_integer s = Some (ds, r) -> (length r < length s)%nat.
Proof.
  unfold match_integer. intros H.
  repeat case_match; simplify_eq; simpl; try lia.
  match goal with
  | H : span_digits _ = _ |- _ => apply span_digits_length in H; lia
  end.
Qed.

Lemma match_frac_length s ds r :
  match_frac s = (ds, r) -> (length r <= length s)%nat.
Proof.
  unfold match_frac. intros H.
  repeat case_match; simplify_eq; simpl; try lia.
  match goal with
  | H : span_digits _ = _ |- _ => apply span_digits_length in H; lia
  end.
Qed.

Lemma match_exp_length s ds r :
  match_exp s = (ds, r) -> (length r <= length s)%nat.
Proof.
  unfold match_exp. intros H.
  repeat case_match; simplify_eq; simpl; try lia;
  match goal with
  | H : span_digits _ = _ |- _ =>
      apply span_digits_length in H; simpl in *; lia
  end.
Qed.

Lemma match_number_length s v rest :
  match_number s = Some (v, rest) -> (length rest < length s)%nat.
Proof.
  unfold match_number. intros H.
  repeat case_match; simplify_eq;
    repeat match goal with
    | H : match_integer _ = Some _ |- _ => apply match_integer_length in H
    | H : match_frac _ = _ |- _ => apply match_frac_length in H
    | H : match_exp _ = _ |- _ => apply match_exp_length in H
    end; simpl in *; lia.
Qed.

Lemma scan_decreasing (fuel : nat) :
  (forall s, decreasing (scan_once fuel s) s)
  /\ (forall s, decreasing (JSONArray fuel s) s)
  /\ (forall s acc, decreasing (array_items fuel s acc) s)
  /\ (forall s, decreasing (JSONObject fuel s) s)
  /\ (forall s acc, decreasing (object_members fuel s acc) s).
Proof.
  induction fuel as [|fuel (IHs & IHa & IHi & IHo & IHm)];
    [by repeat split|].
  assert (Hws := skip_whitespace_length).
  repeat split.
  - intros [|c t]; simpl; [done|].
    repeat case_match; simpl; try done.
    + match goal with H : scanstring _ = _ |- _ =>
        apply scanstring_length in H; lia end.
    + specialize (IHo (skip_whitespace t)). specialize (Hws t).
      destruct (JSONObject fuel _); simpl in *; try done. lia.
    + specialize (IHa (skip_whitespace t)). specialize (Hws t).
      destruct (JSONArray fuel _); simpl in *; try done. lia.
    + match goal with H : match_constant _ = _ |- _ =>
        apply match_constant_length in H; simpl in H; lia end.
    + destruct (match_number (c :: t)) as [[v r]|] eqn:E; simpl; [|done].
      apply match_number_length in E. simpl in E. lia.
  - intros [|c t]; simpl.
    + apply IHi.
    + destruct (c =? 93); simpl; [lia|]. apply IHi.
  - intros s acc; simpl. specialize (IHs s).
    destruct (scan_once fuel s) as [v rest| |]; simpl in *; try done.
    specialize (Hws rest).
    destruct (skip_whitespace rest) as [|c t] eqn:E; simpl; [done|].
    destruct (c =? 93); simpl; [simpl in Hws; lia|].
    destruct (c =? 44); simpl; [|done].
    specialize (IHi (skip_whitespace t) (v :: acc)).
    assert (Hws' := skip_whitespace_length t).
    destruct (array_items fuel _ _); simpl in *; try done. lia.
  - intros [|c t]; simpl.
    + apply IHm.
    + destruct (c =? 125); simpl; [lia|]. apply IHm.
  - intros [|q t] acc; simpl; [done|].
    destruct (q =? QUOTE); simpl; [|done].
    destruct (scanstring t) as [[key rest]|] eqn:Ek; simpl; [|done].
    apply scanstring_length in Ek.
    assert (Hr := Hws rest).
    destruct (skip_whitespace rest) as [|c t1]; simpl; [done|].
    destruct (c =? 58); simpl; [|done].
    specialize (IHs (skip_whitespace t1)). assert (H1 := Hws t1).
    destruct (scan_once fuel _) as [v rest1| |]; simpl in *; try done.
    assert (Hr1 := Hws rest1).
    destruct (skip_whitespace rest1) as [|c1 t2]; simpl; [done|].
    destruct (c1 =? 125); simpl; [simpl in *; lia|].
    destruct (c1 =? 44); simpl; [|done].
    specialize (IHm (skip_whitespace t2) (dict_setitem acc key v)).
    assert (H2 := Hws t2).
    destruct (object_members fuel _ _); simpl in *; try done. lia.
Qed.

Lemma scan_once_decreasing fuel s v rest :
  scan_once fuel s = Scanned v rest -> (length rest < length s)%nat.
Proof.
  intros H. destruct (scan_decreasing fuel) as (Hs & _).
  specialize (Hs s). by rewrite H in Hs.
Qed.

(** Once a call has come back, a greater budget changes nothing. *)
Lemma scan_stable (fuel : nat) :
  forall fuel', (fuel <= fuel')%nat ->
  (forall s, scan_once fuel s <> Exhausted ->
     scan_once fuel' s = scan_once fuel s)
  /\ (forall s, JSONArray fuel s <> Exhausted ->
     JSONArray fuel' s = JSONArray fuel s)
  /\ (forall s acc, array_items fuel s acc <> Exhausted ->
     array_items fuel' s acc = array_items fuel s acc)
  /\ (forall s, JSONObject fuel s <> Exhausted ->
     JSONObject fuel' s = JSONObject fuel s)
  /\ (forall s acc, object_members fuel s acc <> Exhausted ->
     object_members fuel' s acc = object_members fuel s acc).
Proof.
  induction fuel as [|fuel IH]; intros fuel' Hle; [by repeat split|].
  destruct fuel' as [|fuel']; [lia|].
  destruct (IH fuel' ltac:(lia)) as (IHs & IHa & IHi & IHo & IHm).
  repeat split.
  - intros [|c t]; simpl; [done|].
    repeat case_match; try done; auto.
  - intros [|c t]; simpl; [by auto|].
    destruct (c =? 93); [done | by auto].
  - intros s acc; simpl. intros H.
    destruct (scan_once fuel s) as [v rest| |] eqn:E; try done;
      rewrite IHs, E by (by rewrite E); [|done].
    repeat case_match; try done. by apply IHi.
  - intros [|c t]; simpl; [by auto|].
    destruct (c =? 125); [done | by auto].
  - intros [|q t] acc; simpl; [done|].
    destruct (q =? QUOTE); [|done].
    destruct (scanstring t) as [[key rest]|]; [|done].
    destruct (skip_whitespace rest) as [|c t1]; [done|].
    destruct (c =? 58); [|done].
    intros H.
    destruct (scan_once fuel (skip_whitespace t1)) as [v rest1| |] eqn:E;
      try done; rewrite IHs, E by (by rewrite E); [|done].
    destruct (skip_whitespace rest1) as [|c1 t2]; [done|].
    destruct (c1 =? 125); [done|].
    destruct (c1 =? 44); [|done]. by apply IHm.
Qed.

(** No call of the scanner uses up a budget of three steps for each
    character of its input. *)
Lemma scan_total (fuel : nat) :
  (forall s, (3 * length s + 1 <= fuel)%nat -> scan_once fuel s <> Exhausted)
  /\ (forall s, (3 * length s + 3 <= fuel)%nat ->
        JSONArray fuel s <> Exhausted)
  /\ (forall s acc, (3 * length s + 2 <= fuel)%nat ->
        array_items fuel s acc <> Exhausted)
  /\ (forall s, (3 * length s + 3 <= fuel)%nat ->
        JSONObject fuel s <> Exhausted)
  /\ (forall s acc, (3 * length s + 2 <= fuel)%nat ->
        object_members fuel s acc <> Exhausted).
Proof.
  induction fuel as [|fuel (IHs & IHa & IHi & IHo & IHm)].
  { repeat split; intros; lia. }
  assert (Hws := skip_whitespace_length).
  repeat split.
  - intros [|c t] Hf; simpl in *; [done|].
    repeat case_match; try done.
    + apply IHo. specialize (Hws t). lia.
    + apply IHa. specialize (Hws t). lia.
    + by destruct (match_number (c :: t)) as [[? ?]|].
  - intros [|c t] Hf; simpl in *.
    + apply IHi. simpl. lia.
    + destruct (c =? 93); [done|]. apply IHi. simpl. lia.
  - intros s acc Hf; simpl.
    destruct (scan_once fuel s) as [v rest| |] eqn:E; try done.
    + apply scan_once_decreasing in E. assert (Hr := Hws rest).
      destruct (skip_whitespace rest) as [|c t] eqn:Er; [done|].
      repeat case_match; try done.
      apply IHi. assert (H1 := Hws t). simpl in *. lia.
    + by apply IHs in E; [|lia].
  - intros [|c t] Hf; simpl in *.
    + apply IHm. simpl. lia.
    + destruct (c =? 125); [done|]. apply IHm. simpl. lia.
  - intros [|q t] acc Hf; simpl in *; [done|].
    destruct (q =? QUOTE); [|done].
    destruct (scanstring t) as [[key rest]|] eqn:Ek; [|done].
    apply scanstring_length in Ek. assert (Hr := Hws rest).
    destruct (skip_whitespace rest) as [|c t1]; [done|].
    destruct (c =? 58); [|done].
    assert (H1 := Hws t1). simpl in *.
    destruct (scan_once fuel (skip_whitespace t1)) as [v rest1| |] eqn:E;
      try done.
    + apply scan_once_decreasing in E. assert (Hr1 := Hws rest1).
      destruct (skip_whitespace rest1) as [|c1 t2]; [done|].
      repeat case_match; try done.
      apply IHm. assert (H2 := Hws t2). simpl in *. lia.
    + by apply IHs in E; [|lia].
Qed.

Lemma decode_terminates (s : str) : decode s <> Exhausted.
Proof.
  unfold decode.
  destruct (scan_total (3 * length (skip_whitespace s) + 1)) as (Hs & _).
  specialize (Hs (skip_whitespace s) ltac:(lia)).
  destruct (scan_once _ _); try done. by case_match.
Qed.

(** ** Integers read back *)

Lemma uint_str_digits (u : Decimal.uint) : forallb is_digit (uint_str u) = true.
Proof. induction u; simpl; auto. Qed.

Lemma uint_of_digits_str (u : Decimal.uint) : uint_of_digits (uint_str u) = u.
Proof. induction u; simpl; auto; by rewrite IHu. Qed.

Lemma span_digits_app (ds rest : str) :
  forallb is_digit ds = true -> delimited rest ->
  span_digits (ds ++ rest) = (ds, rest).
Proof.
  intros Hds Hrest. induction ds as [|c ds IH]; simpl in *.
  - destruct rest as [|c rest]; [done|]. simpl.
    destruct Hrest as [-> | ->]; done.
  - apply andb_true_iff in Hds as [Hc Hds]. by rewrite Hc, IH.
Qed.

Lemma to_uint_head (p : positive) :
  exists c ds, uint_str (Pos.to_uint p) = c :: ds
    /\ is_digit c = true /\ (c =? 48) = false.
Proof.
  assert (Hn : Decimal.unorm (Pos.to_uint p) = Pos.to_uint p).
  { rewrite <- (DecimalPos.Unsigned.to_of (Pos.to_uint p)).
    by rewrite DecimalPos.Unsigned.of_to. }
  assert (Hz := DecimalPos.Unsigned.to_uint_nonzero p).
  assert (Hnil := DecimalPos.Unsigned.to_uint_nonnil p).
  destruct (Pos.to_uint p) as [|u|u|u|u|u|u|u|u|u|u] eqn:E.
  1: by destruct Hnil.
  1: { exfalso. rewrite DecimalFacts.unorm_D0 in Hn.
       assert (Hu : u <> Decimal.Nil) by (intros ->; by apply Hz).
       apply DecimalFacts.nb_digits_unorm in Hu. rewrite Hn in Hu.
       simpl in Hu. lia. }
  all: simpl; eexists _, _; split; [reflexivity|]; split; reflexivity.
Qed.

Lemma match_frac_delimited (rest : str) :
  delimited rest -> match_frac rest = ([], rest).
Proof.
  destruct rest as [|c [|d t]]; try done.
  simpl. by intros [-> | ->].
Qed.

Lemma match_exp_delimited (rest : str) :
  delimited rest -> match_exp rest = ([], rest).
Proof.
  destruct rest as [|c t]; try done.
  simpl. by intros [-> | ->].
Qed.

Lemma match_number_digits (ds rest : str) :
  delimited rest ->
  (exists c ds', ds = c :: ds' /\ is_digit c = true /\ (c =? 48) = false
                 /\ forallb is_digit ds' = true)
  \/ ds = [48] ->
  match_number (ds ++ rest) = Some (VInt (Z.of_uint (uint_of_digits ds)), rest)
  /\ match_number (45 :: ds ++ rest)
     = Some (VInt (- Z.of_uint (uint_of_digits ds)), rest).
Proof.
  intros Hrest [(c & ds' & -> & Hc & Hnz & Hds) | ->].
  - assert (Hc45 : (c =? 45) = false).
    { unfold is_digit in Hc. apply andb_true_iff in Hc as [H1 H2].
      apply N.leb_le in H1. apply N.eqb_neq. lia. }
    unfold match_number, match_integer; simpl.
    rewrite Hc45, Hnz, Hc, (span_digits_app _ _ Hds Hrest).
    rewrite (match_frac_delimited _ Hrest), (match_exp_delimited _ Hrest).
    simpl. by rewrite Hc45.
  - unfold match_number, match_integer; simpl.
    by rewrite (match_frac_delimited _ Hrest), (match_exp_delimited _ Hrest).
Qed.

Lemma match_number_int_repr (n : Z) (rest : str) :
  delimited rest ->
  match_number (int_repr n ++ rest) = Some (VInt n, rest).
Proof.
  intros Hrest. unfold int_repr.
  destruct n as [|p|p]; simpl.
  - by apply (match_number_digits [48] rest Hrest); right.
  - destruct (to_uint_head p) as (c & ds & E & Hc & Hnz).
    assert (Hall := uint_str_digits (Pos.to_uint p)).
    destruct (match_number_digits (uint_str (Pos.to_uint p)) rest Hrest)
      as [H _].
    { left. exists c, ds. rewrite E in Hall |- *. simpl in Hall.
      apply andb_true_iff in Hall as [_ Hall]. done. }
    rewrite H, uint_of_digits_str.
    change (Z.of_uint (Pos.to_uint p)) with (Z.of_int (Z.to_int (Z.pos p))).
    by rewrite DecimalZ.of_to.
  - destruct (to_uint_head p) as (c & ds & E & Hc & Hnz).
    assert (Hall := uint_str_digits (Pos.to_uint p)).
    destruct (match_number_digits (uint_str (Pos.to_uint p)) rest Hrest)
      as [_ H].
    { left. exists c, ds. rewrite E in Hall |- *. simpl in Hall.
      apply andb_true_iff in Hall as [_ Hall]. done. }
    rewrite H, uint_of_digits_str.
    change (- Z.of_uint (Pos.to_uint p))%Z
      with (Z.of_int (Z.to_int (Z.neg p))).
    by rewrite DecimalZ.of_to.
Qed.

(** The first character of a number: a digit or a minus sign followed
    by one. *)
Lemma int_repr_head (n : Z) :
  exists c t, int_repr n = c :: t
    /\ (is_digit c = true
        \/ (c = 45 /\ exists d t', t = d :: t' /\ is_digit d = true)).
Proof.
  unfold int_repr. destruct n as [|p|p]; simpl.
  - exists 48, []. auto.
  - destruct (to_uint_head p) as (c & ds & E & Hc & _). rewrite E. eauto.
  - destruct (to_uint_head p) as (c & ds & E & Hc & _). rewrite E.
    exists 45, (c :: ds). split; [done|]. right. eauto.
Qed.

Local Opaque N.eqb.

(** Settles the comparisons of characters in the goal that the context
    decides. *)
Ltac decide_eqb :=
  repeat match goal with
  | |- context [N.eqb ?a ?b] =>
      first [ destruct (N.eqb_spec a b); [lia|]
            | destruct (N.eqb_spec a b); [|lia] ]
  end.

Lemma match_constant_digit (c : N) (t : str) :
  is_digit c = true -> match_constant (c :: t) = None.
Proof.
  intros Hc. unfold is_digit in Hc. apply andb_true_iff in Hc as [H1 H2].
  apply N.leb_le in H1, H2.
  unfold match_constant; simpl. decide_eqb. done.
Qed.

Lemma match_constant_minus (d : N) (t : str) :
  is_digit d = true -> match_constant (45 :: d :: t) = None.
Proof.
  intros Hc. unfold is_digit in Hc. apply andb_true_iff in Hc as [H1 H2].
  apply N.leb_le in H1, H2.
  unfold match_constant; simpl. decide_eqb. simpl. decide_eqb. done.
Qed.

Local Transparent N.eqb.

Lemma scan_once_int (fuel : nat) (n : Z) (rest : str) :
  delimited rest ->
  scan_once (S fuel) (int_repr n ++ rest) = Scanned (VInt n) rest.
Proof.
  intros Hrest.
  assert (Hm := match_number_int_repr n rest Hrest).
  destruct (int_repr_head n) as (c & t & E & Hc).
  rewrite E in Hm |- *. simpl app in *. cbn [scan_once].
  assert (Hne : (c =? QUOTE) = false /\ (c =? 123) = false
                /\ (c =? 91) = false).
  { unfold QUOTE. destruct Hc as [Hc | [-> _]]; [|done].
    unfold is_digit in Hc. apply andb_true_iff in Hc as [H1 H2].
    apply N.leb_le in H1, H2.
    repeat split; apply N.eqb_neq; lia. }
  destruct Hne as (-> & -> & ->).
  assert (Hk : match_constant (c :: t ++ rest) = None).
  { destruct Hc as [Hc | [-> (d & t' & -> & Hd)]].
    - by apply match_constant_digit.
    - by apply match_constant_minus. }
  by rewrite Hk, Hm.
Qed.

(** ** Strings read back *)

Lemma scanstring_escape (c : N) (t : str) :
  scanstring (escape c ++ t) = scan_cons c (scanstring t).
Proof.
  destruct (c <? 32) eqn:Hlt.
  - apply N.ltb_lt in Hlt.
    destruct c as [|p]; [done|].
    do 5 (try destruct p as [p|p|]); try lia; reflexivity.
  - unfold escape. rewrite Hlt.
    apply N.ltb_ge in Hlt.
    destruct (c =? QUOTE) eqn:Eq; [by apply N.eqb_eq in Eq as ->|].
    destruct (c =? BACKSLASH) eqn:Eb; [by apply N.eqb_eq in Eb as ->|].
    repeat match goal with
    | |- context [c =? ?k] =>
        destruct (N.eqb_spec c k); [unfold QUOTE, BACKSLASH in *; lia|]
    end.
    simpl. rewrite Eq, Eb.
    by destruct (N.ltb_spec c 32); [lia|].
Qed.

Lemma scanstring_encode (s rest : str) :
  scanstring (flat_map escape s ++ QUOTE :: rest) = Some (s, rest).
Proof.
  induction s as [|c s IH]; [done|].
  simpl flat_map. rewrite <- app_assoc, scanstring_escape, IH. done.
Qed.

(** ** Documents read back *)

Lemma value_ind' (P : value float -> Prop) :
  P VNone -> (forall b, P (VBool b)) -> (forall n, P (VInt n)) ->
  (forall f, P (VFloat f)) -> (forall s, P (VStr s)) ->
  (forall l, Forall P l -> P (VList l)) ->
  (forall d, Forall (fun kv => P kv.2) d -> P (VDict d)) ->
  forall v, P v.
Proof.
  intros HN HB HI HF HS HL HD.
  fix IH 1. intros [|b|n|f|s|l|d].
  - exact HN.
  - apply HB.
  - apply HI.
  - apply HF.
  - apply HS.
  - apply HL. induction l as [|x l IHl]; constructor; [apply IH | exact IHl].
  - apply HD.
    induction d as [|[k x] d IHd]; constructor; [apply IH | exact IHd].
Qed.

Lemma skip_whitespace_newline_indent (level : nat) (s : str) :
  skip_whitespace (newline_indent level ++ s) = skip_whitespace s.
Proof.
  unfold newline_indent. generalize (4 * level)%nat. intros n.
  change (skip_whitespace (repeat 32 n ++ s) = skip_whitespace s).
  induction n as [|n IH]; simpl; auto.
Qed.

(** What the scanner accepts starts with no white space and with no
    closing bracket. *)
Lemma scan_once_head (fuel : nat) (s : str) (v : value float) (rest : str) :
  scan_once fuel s = Scanned v rest ->
  exists c t, s = c :: t /\ is_whitespace c = false
              /\ (c =? 93) = false /\ (c =? 125) = false.
Proof.
  destruct fuel as [|fuel]; [done|].
  destruct s as [|c t]; [done|]. intros H.
  exists c, t. split; [done|].
  destruct (is_whitespace c) eqn:Hw.
  { unfold is_whitespace in Hw.
    repeat (apply orb_true_iff in Hw as [Hw|Hw]);
      apply N.eqb_eq in Hw as ->; discriminate. }
  split; [done|].
  destruct (N.eqb_spec c 93) as [->|_]; [discriminate|].
  destruct (N.eqb_spec c 125) as [->|_]; [discriminate|]. done.
Qed.

Lemma scans_to_head (s : str) (v : value float) (rest : str) :
  scans_to s v rest ->
  exists c t, s = c :: t /\ skip_whitespace s = s
              /\ (c =? 93) = false /\ (c =? 125) = false.
Proof.
  intros [f0 H]. specialize (H f0 (le_n _)).
  apply scan_once_head in H as (c & t & -> & Hw & H1 & H2).
  exists c, t. simpl. by rewrite Hw.
Qed.

Section Containers.

Variable level : nat.
Variable rest : str.

Local Abbreviation list_tail := (list_tail level rest).
Local Abbreviation dict_tail := (dict_tail level rest).

Lemma list_tail_delimited xs : delimited (list_tail xs).
Proof. destruct xs; simpl; auto. Qed.

Lemma dict_tail_delimited kvs : delimited (dict_tail kvs).
Proof. destruct kvs; simpl; auto. Qed.

Lemma list_tail_nil : list_tail [] = newline_indent level ++ 93 :: rest.
Proof. done. Qed.

Lemma list_tail_cons y ys :
  list_tail (y :: ys)
  = 44 :: newline_indent (S level) ++ iterencode (S level) y ++ list_tail ys.
Proof.
  unfold list_tail. cbn [flat_map]. unfold item_separator.
  by rewrite <- !app_assoc.
Qed.

Lemma dict_tail_nil : dict_tail [] = newline_indent level ++ 125 :: rest.
Proof. done. Qed.

Lemma dict_tail_cons kv kvs :
  dict_tail (kv :: kvs)
  = 44 :: newline_indent (S level)
    ++ encode_member (iterencode (S level)) kv ++ dict_tail kvs.
Proof.
  unfold dict_tail. cbn [flat_map]. unfold item_separator.
  by rewrite <- !app_assoc.
Qed.

Lemma array_items_encoded (xs : list (value float)) :
  Forall (fun x => forall r, delimited r ->
            scans_to (iterencode (S level) x ++ r) x r) xs ->
  forall x acc,
    (forall r, delimited r -> scans_to (iterencode (S level) x ++ r) x r) ->
    exists fuel0, forall fuel, (fuel0 <= fuel)%nat ->
      array_items fuel (iterencode (S level) x ++ list_tail xs) acc
      = Scanned (VList (rev acc ++ x :: xs)) rest.
Proof.
  induction 1 as [|y ys Hy Hys IH]; intros x acc Hx.
  - destruct (Hx (list_tail []) (list_tail_delimited _)) as [f0 Hf0].
    exists (S f0). intros [|fuel] Hle; [lia|].
    cbn [array_items]. rewrite Hf0 by lia.
    rewrite list_tail_nil, skip_whitespace_newline_indent. done.
  - destruct (Hx (list_tail (y :: ys)) (list_tail_delimited _)) as [f0 Hf0].
    destruct (IH y (x :: acc) Hy) as [f1 Hf1].
    exists (S (f0 + f1)). intros [|fuel] Hle; [lia|].
    cbn [array_items]. rewrite Hf0 by lia.
    rewrite list_tail_cons.
    change (skip_whitespace (44 :: ?s)) with (44 :: s). cbv beta iota.
    change (44 =? 93) with false. change (44 =? 44) with true. cbv iota.
    rewrite skip_whitespace_newline_indent.
    destruct (scans_to_head _ _ _ (Hy (list_tail ys) (list_tail_delimited _)))
      as (c & t & E & Hsk & _).
    rewrite Hsk, Hf1 by lia.
    cbn [rev]. by rewrite <- app_assoc.
Qed.

(** A key that is not there yet goes to the end. *)
Lemma dict_setitem_fresh (acc : dict float) key v :
  key ∉ acc.*1 -> dict_setitem acc key v = acc ++ [(key, v)].
Proof.
  induction acc as [|[k x] acc IH]; simpl; intros Hk; [done|].
  apply not_elem_of_cons in Hk as [Hne Hk].
  destruct (decide (k = key)); [congruence|]. by rewrite IH.
Qed.

Lemma encode_member_text (k : str) (v : value float) (s : str) :
  encode_member (iterencode (S level)) (k, v) ++ s
  = QUOTE :: flat_map escape k
    ++ QUOTE :: 58 :: 32 :: iterencode (S level) v ++ s.
Proof.
  unfold encode_member, encode_basestring. simpl.
  by rewrite <- !app_assoc.
Qed.

Lemma object_members_encoded (kvs : dict float) :
  Forall (fun kv => forall r, delimited r ->
            scans_to (iterencode (S level) kv.2 ++ r) kv.2 r) kvs ->
  forall kv acc,
    NoDup (acc.*1 ++ kv.1 :: kvs.*1) ->
    (forall r, delimited r ->
       scans_to (iterencode (S level) kv.2 ++ r) kv.2 r) ->
    exists fuel0, forall fuel, (fuel0 <= fuel)%nat ->
      object_members fuel
        (encode_member (iterencode (S level)) kv ++ dict_tail kvs) acc
      = Scanned (VDict (acc ++ kv :: kvs)) rest.
Proof.
  induction 1 as [|kv' kvs Hy Hys IH]; intros [k x] acc Hnd Hx; simpl in Hx.
  - destruct (Hx (dict_tail []) (dict_tail_delimited _)) as [f0 Hf0].
    destruct (scans_to_head _ _ _ (Hx (dict_tail []) (dict_tail_delimited _)))
      as (c & t & E & Hsk & _).
    exists (S f0). intros [|fuel] Hle; [lia|].
    rewrite encode_member_text. cbn [object_members].
    change (QUOTE =? QUOTE) with true. cbv iota.
    rewrite scanstring_encode.
    change (skip_whitespace (58 :: ?s)) with (58 :: s). cbv beta iota.
    change (58 =? 58) with true. cbv iota.
    change (skip_whitespace (32 :: ?s)) with (skip_whitespace s).
    rewrite Hsk, Hf0 by lia.
    rewrite dict_tail_nil, skip_whitespace_newline_indent.
    change (skip_whitespace (125 :: ?s)) with (125 :: s). cbv beta iota.
    change (125 =? 125) with true. cbv iota.
    rewrite dict_setitem_fresh; [done|].
    apply NoDup_app in Hnd as (_ & Hnd & _). intros Hin.
    apply (Hnd _ Hin). by left.
  - destruct (Hx (dict_tail (kv' :: kvs)) (dict_tail_delimited _))
      as [f0 Hf0].
    destruct (scans_to_head _ _ _
                (Hx (dict_tail (kv' :: kvs)) (dict_tail_delimited _)))
      as (c & t & E & Hsk & _).
    assert (Hfresh : k ∉ acc.*1).
    { apply NoDup_app in Hnd as (_ & Hnd & _). intros Hin.
      apply (Hnd _ Hin). by left. }
    destruct (IH kv' (acc ++ [(k, x)])) as [f1 Hf1].
    { rewrite fmap_app, <- app_assoc. exact Hnd. }
    { exact Hy. }
    exists (S (f0 + f1)). intros [|fuel] Hle; [lia|].
    rewrite encode_member_text. cbn [object_members].
    change (QUOTE =? QUOTE) with true. cbv iota.
    rewrite scanstring_encode.
    change (skip_whitespace (58 :: ?s)) with (58 :: s). cbv beta iota.
    change (58 =? 58) with true. cbv iota.
    change (skip_whitespace (32 :: ?s)) with (skip_whitespace s).
    rewrite Hsk, Hf0 by lia.
    rewrite dict_tail_cons.
    change (skip_whitespace (44 :: ?s)) with (44 :: s). cbv beta iota.
    change (44 =? 125) with false. change (44 =? 44) with true. cbv iota.
    rewrite skip_whitespace_newline_indent.
    assert (Hq : forall s, skip_whitespace
                   (encode_member (iterencode (S level)) kv' ++ s)
                 = encode_member (iterencode (S level)) kv' ++ s).
    { intros s. destruct kv'. by rewrite encode_member_text. }
    rewrite Hq, dict_setitem_fresh, Hf1 by (done || lia).
    by rewrite <- app_assoc.
Qed.

End Containers.

Lemma scan_iterencode (v : value float) :
  representable v ->
  forall level rest, delimited rest ->
    scans_to (iterencode level v ++ rest) v rest.
Proof.
  induction v as [|b|n|f|s|l IH|d IH] using value_ind';
    intros Hv level rest Hrest.
  - exists 1%nat. intros [|fuel] ?; [lia|]. done.
  - exists 1%nat. intros [|fuel] ?; [lia|]. by destruct b.
  - exists 1%nat. intros [|fuel] ?; [lia|]. by apply scan_once_int.
  - inversion Hv as [| | |f' Hf| | |]; subst.
    exists 1%nat. intros [|fuel] ?; [lia|]. by apply Hf.
  - exists 1%nat. intros [|fuel] ?; [lia|].
    cbn [iterencode]. unfold encode_basestring.
    cbn [app scan_once]. change (QUOTE =? QUOTE) with true. cbv iota.
    rewrite <- app_assoc. cbn [app]. by rewrite scanstring_encode.
  - inversion Hv as [| | | | |l' Hl|]; subst.
    assert (IH' : Forall (fun x => forall r, delimited r ->
                    scans_to (iterencode (S level) x ++ r) x r) l).
    { rewrite Forall_forall in IH, Hl |- *. intros x Hx r Hr.
      apply IH; auto. }
    destruct l as [|x xs].
    { exists 2%nat. intros [|[|fuel]] ?; try lia. done. }
    apply Forall_cons in IH' as [Hx Hxs].
    destruct (array_items_encoded level rest xs Hxs x [] Hx) as [f0 Hf0].
    destruct (scans_to_head _ _ _
                (Hx (list_tail level rest xs) (list_tail_delimited _ _ _)))
      as (c & t & E & Hsk & Hc & _).
    exists (S (S f0)). intros [|[|fuel]] Hle; try lia.
    cbn [iterencode]. unfold iterencode_list.
    rewrite <- !app_assoc. fold (list_tail level rest xs).
    cbn [lit list_ascii_of_string map app scan_once].
    change (N_of_ascii "[") with 91.
    change (91 =? QUOTE) with false. change (91 =? 123) with false.
    change (91 =? 91) with true. cbv iota.
    rewrite skip_whitespace_newline_indent, Hsk.
    rewrite E. cbn [JSONArray]. rewrite Hc. rewrite <- E.
    by rewrite Hf0 by lia.
  - inversion Hv as [| | | | | |d' Hnd Hd]; subst.
    assert (IH' : Forall (fun kv => forall r, delimited r ->
                    scans_to (iterencode (S level) kv.2 ++ r) kv.2 r) d).
    { rewrite Forall_forall in IH, Hd |- *. intros x Hx r Hr.
      apply IH; auto. }
    destruct d as [|kv kvs].
    { exists 2%nat. intros [|[|fuel]] ?; try lia. done. }
    apply Forall_cons in IH' as [Hx Hxs].
    destruct (object_members_encoded level rest kvs Hxs kv [] Hnd Hx)
      as [f0 Hf0].
    exists (S (S f0)). intros [|[|fuel]] Hle; try lia.
    cbn [iterencode]. unfold iterencode_dict.
    rewrite <- !app_assoc. fold (dict_tail level rest kvs).
    cbn [lit list_ascii_of_string map app scan_once].
    change (N_of_ascii "{") with 123.
    change (123 =? QUOTE) with false. change (123 =? 123) with true.
    cbv iota.
    rewrite skip_whitespace_newline_indent.
    destruct kv as [k x]. rewrite encode_member_text.
    change (skip_whitespace (QUOTE :: ?s)) with (QUOTE :: s).
    cbn [JSONObject]. change (QUOTE =? 125) with false. cbv iota.
    rewrite <- encode_member_text.
    by rewrite Hf0 by lia.
Qed.

(** [json.load] after [json.dump] gives the document back. *)
Lemma decode_dumps (v : value float) :
  representable v -> decode (dumps v) = Scanned v [].
Proof.
  intros Hv. unfold decode, dumps.
  destruct (scan_iterencode v Hv 0%nat [] I) as [f0 Hf0].
  rewrite app_nil_r in Hf0.
  destruct (scans_to_head (iterencode 0 v) v []) as (c & t & E & Hsk & _).
  { by exists f0. }
  rewrite Hsk.
  set (fuel := (3 * length (iterencode 0 v) + 1)%nat).
  assert (Hfuel : scan_once fuel (iterencode 0 v) = Scanned v []).
  { destruct (scan_total fuel) as (Htot & _).
    specialize (Htot (iterencode 0 v) (le_n _)).
    destruct (scan_stable fuel (max fuel f0) ltac:(lia)) as (Hst & _).
    rewrite <- (Hst _ Htot). apply Hf0. lia. }
  by rewrite Hfuel.
Qed.

(** ** Text files read back *)

(** Settles the comparisons in the goal by arithmetic. *)
Ltac decide_cmp :=
  repeat match goal with
  | |- context [N.ltb ?a ?b] =>
      first [ destruct (N.ltb_spec a b); [lia|]
            | destruct (N.ltb_spec a b); [|lia] ]
  | |- context [N.leb ?a ?b] =>
      first [ destruct (N.leb_spec a b); [lia|]
            | destruct (N.leb_spec a b); [|lia] ]
  end.

Lemma utf8_decode_encode_char (c : N) (bs rest : list N) :
  utf8_encode_char c = Some bs ->
  utf8_decode (bs ++ rest) = decode_cons c (utf8_decode rest).
Proof.
  unfold utf8_encode_char, is_surrogate.
  destruct (N.ltb_spec c 128) as [H1|H1].
  { intros [= <-]. cbn [app utf8_decode]. by decide_cmp. }
  destruct (N.ltb_spec c 2048) as [H2|H2].
  { intros [= <-]. cbn [app utf8_decode]. unfold is_continuation.
    assert (Hd := N.div_mod' c 64). assert (Hm := N.mod_lt c 64).
    generalize dependent (c / 64). generalize dependent (c mod 64).
    intros r Hr q Hq. decide_cmp. cbn [andb]. f_equal. lia. }
  destruct (N.ltb_spec c 65536) as [H3|H3].
  { destruct (N.leb_spec 55296 c) as [H4|H4];
      [destruct (N.leb_spec c 57343) as [H5|H5]; [done|]|];
      cbn [andb]; intros [= <-]; cbn [app utf8_decode];
      unfold is_continuation, is_surrogate;
      assert (Hd := N.div_mod' c 64); assert (Hm := N.mod_lt c 64);
      assert (Hd' := N.div_mod' (c / 64) 64);
      assert (Hm' := N.mod_lt (c / 64) 64);
      assert (Hq : c / 4096 = c / 64 / 64)
        by (by rewrite N.Div0.div_div);
      rewrite Hq;
      generalize dependent (c / 64 / 64);
      generalize dependent (c / 64 mod 64);
      generalize dependent (c / 64);
      generalize dependent (c mod 64);
      intros; decide_cmp; cbn [andb negb]; decide_cmp; cbn [andb negb];
      f_equal; lia. }
  destruct (N.ltb_spec c 1114112) as [H4|H4]; [|done].
  intros [= <-]. cbn [app utf8_decode]. unfold is_continuation.
  assert (Hd := N.div_mod' c 64). assert (Hm := N.mod_lt c 64).
  assert (Hd' := N.div_mod' (c / 64) 64).
  assert (Hm' := N.mod_lt (c / 64) 64).
  assert (Hd'' := N.div_mod' (c / 4096) 64).
  assert (Hm'' := N.mod_lt (c / 4096) 64).
  assert (Hq : c / 4096 = c / 64 / 64) by (by rewrite N.Div0.div_div).
  assert (Hq' : c / 262144 = c / 4096 / 64) by (by rewrite N.Div0.div_div).
  rewrite Hq' in *. rewrite Hq in *.
  generalize dependent (c / 64 / 64 / 64).
  generalize dependent (c / 64 / 64 mod 64).
  generalize dependent (c / 64 / 64).
  generalize dependent (c / 64 mod 64).
  generalize dependent (c / 64).
  generalize dependent (c mod 64).
  intros. decide_cmp. cbn [andb]. decide_cmp. cbn [andb]. f_equal. lia.
Qed.

Lemma utf8_decode_encode (s : str) (bs : list N) :
  utf8_encode s = Some bs -> utf8_decode bs = Some s.
Proof.
  revert bs. induction s as [|c s IH]; simpl; intros bs H.
  - by inversion H.
  - destruct (utf8_encode_char c) as [b|] eqn:Ec; [|done].
    destruct (utf8_encode s) as [bs'|]; [|done].
    inversion H; subst.
    by rewrite (utf8_decode_encode_char _ _ _ Ec), (IH _ eq_refl).
Qed.

(** What a successful [json.dump] leaves in a file, [json.load] reads
    back. *)
Lemma json_load_dumps (v : value float) (bytes : list N) :
  representable v -> utf8_encode (dumps v) = Some bytes ->
  json_load bytes = Return v.
Proof.
  intros Hv Hb. unfold json_load.
  by rewrite (utf8_decode_encode _ _ Hb), (decode_dumps _ Hv).
Qed.

(** ** [dict] operations *)

Lemma dict_contains_elem (d : dict float) (key : str) :
  dict_contains d key = true <-> key ∈ d.*1.
Proof.
  unfold dict_contains. induction d as [|[k v] d IH]; simpl.
  - split; [done | by intros ?%elem_of_nil].
  - destruct (decide (k = key)) as [->|Hne].
    + split; [intros _; by left | done].
    + rewrite IH. split; [by right|].
      intros [?|?]%elem_of_cons; [congruence | done].
Qed.

Lemma dict_get_setitem (d : dict float) (key key' : str) (v : value float) :
  dict_get (dict_setitem d key v) key'
  = if decide (key = key') then Some v else dict_get d key'.
Proof.
  induction d as [|[k x] d IH]; simpl.
  - by destruct (decide (key = key')).
  - destruct (decide (k = key)) as [->|Hne]; simpl.
    + by destruct (decide (key = key')).
    + destruct (decide (k = key')) as [->|Hne'].
      * by destruct (decide (key = key')); [congruence|].
      * apply IH.
Qed.

Lemma dict_setitem_keys_in (d : dict float) (key : str) (v : value float) :
  key ∈ d.*1 -> (dict_setitem d key v).*1 = d.*1.
Proof.
  induction d as [|[k x] d IH]; csimpl; [by intros ?%elem_of_nil|].
  intros Hin. destruct (decide (k = key)) as [->|Hne]; csimpl; [done|].
  apply elem_of_cons in Hin as [?|Hin]; [congruence|]. by rewrite IH.
Qed.

Lemma dict_setitem_In (d : dict float) (key : str) (v : value float) kv :
  kv ∈ dict_setitem d key v -> kv = (key, v) \/ kv ∈ d.
Proof.
  induction d as [|[k x] d IH]; simpl.
  - intros ->%list_elem_of_singleton. by left.
  - destruct (decide (k = key)) as [->|Hne].
    + intros [->|?]%elem_of_cons; [by left | right; by right].
    + intros [->|H]%elem_of_cons; [right; by left|].
      destruct (IH H); [by left | right; by right].
Qed.

Lemma representable_setitem (d : dict float) (key : str) (v : value float) :
  representable (VDict d) -> representable v ->
  representable (VDict (dict_setitem d key v)).
Proof.
  intros Hd Hv. inversion Hd as [| | | | | |d' Hnd Hall]; subst.
  constructor.
  - destruct (decide (key ∈ d.*1)) as [Hin|Hnin].
    + by rewrite dict_setitem_keys_in.
    + rewrite dict_setitem_fresh, fmap_app by done.
      apply NoDup_app. repeat split; [done| |apply NoDup_singleton].
      intros k Hk ->%list_elem_of_singleton. done.
  - rewrite Forall_forall in Hall |- *. intros kv Hkv.
    apply dict_setitem_In in Hkv as [->|Hkv]; auto.
Qed.

Lemma dict_delitem_keys (d : dict float) (key k : str) :
  k ∈ (dict_delitem d key).*1 -> k ∈ d.*1.
Proof.
  induction d as [|[k' x] d IH]; csimpl; [done|].
  destruct (decide (k' = key)); csimpl; [by right|].
  intros [->|?]%elem_of_cons; [by left | right; auto].
Qed.

Lemma representable_delitem (d : dict float) (key : str) :
  representable (VDict d) -> representable (VDict (dict_delitem d key)).
Proof.
  intros Hd. inversion Hd as [| | | | | |d' Hnd Hall]; subst.
  constructor.
  - clear Hall Hd. induction d as [|[k x] d IH]; csimpl; [done|].
    apply NoDup_cons in Hnd as [Hk Hnd].
    destruct (decide (k = key)); csimpl; [done|].
    apply NoDup_cons. split; [|auto].
    intros Hin. apply Hk. by eapply dict_delitem_keys.
  - clear Hnd Hd. induction d as [|[k x] d IH]; csimpl; [done|].
    apply Forall_cons in Hall as [Hx Hall].
    destruct (decide (k = key)); [done|].
    apply Forall_cons. auto.
Qed.

Lemma dict_delitem_absent (d : dict float) (key : str) :
  NoDup d.*1 -> dict_contains (dict_delitem d key) key = false.
Proof.
  intros Hnd. apply not_true_iff_false. rewrite dict_contains_elem.
  induction d as [|[k x] d IH]; csimpl; [by intros ?%elem_of_nil|].
  apply NoDup_cons in Hnd as [Hk Hnd].
  destruct (decide (k = key)) as [->|Hne]; [done|].
  csimpl. intros [?|?]%elem_of_cons; [congruence | by apply IH].
Qed.

Lemma dict_get_delitem_ne (d : dict float) (key key' : str) :
  key <> key' -> dict_get (dict_delitem d key) key' = dict_get d key'.
Proof.
  intros Hne. induction d as [|[k x] d IH]; simpl; [done|].
  destruct (decide (k = key)) as [->|Hk]; simpl.
  - by destruct (decide (key = key')).
  - by rewrite IH.
Qed.

Lemma representable_update (updates d : dict float) :
  representable (VDict d) ->
  Forall (fun kv => representable kv.2) updates ->
  representable (VDict (dict_update d updates)).
Proof.
  unfold dict_update. revert d.
  induction updates as [|[k v] updates IH]; simpl; intros d Hd Hu; [done|].
  apply Forall_cons in Hu as [Hv Hu].
  apply IH; [|done]. by apply representable_setitem.
Qed.

(** After [d.update(updates)] a key of [updates] has its value there,
    and any other key the value it had. *)
Lemma dict_get_update (updates d : dict float) (key : str) :
  NoDup updates.*1 ->
  dict_get (dict_update d updates) key
  = match dict_get updates key with
    | Some v => Some v
    | None => dict_get d key
    end.
Proof.
  unfold dict_update. revert d.
  induction updates as [|[k v] updates IH]; simpl; intros d Hnd; [done|].
  apply NoDup_cons in Hnd as [Hk Hnd].
  rewrite IH by done. rewrite dict_get_setitem.
  destruct (decide (k = key)) as [->|Hne]; [|done].
  destruct (dict_get updates key) eqn:E; [|done].
  exfalso. apply Hk. apply dict_contains_elem.
  unfold dict_contains. by rewrite E.
Qed.

(** ** The chunks of [json.dump] *)

Lemma utf8_encode_app (a b : str) :
  utf8_encode (a ++ b)
  = match utf8_encode a, utf8_encode b with
    | Some x, Some y => Some (x ++ y)
    | _, _ => None
    end.
Proof.
  induction a as [|c a IH]; cbn [app utf8_encode].
  - by destruct (utf8_encode b).
  - rewrite IH.
    destruct (utf8_encode_char c), (utf8_encode a), (utf8_encode b); try done.
    by rewrite app_assoc.
Qed.

(** The file is handed the bytes of the whole text when every chunk
    encodes, that is, when the text does. *)
Lemma write_chunks_encoded (chunks : list str) (bytes : list N) :
  utf8_encode (concat chunks) = Some bytes ->
  write_chunks chunks = (bytes, true).
Proof.
  revert bytes. induction chunks as [|c chunks IH]; intros bytes.
  { by intros [= <-]. }
  cbn [concat write_chunks]. rewrite utf8_encode_app.
  destruct (utf8_encode c) as [bs|]; [|done].
  destruct (utf8_encode (concat chunks)) as [bs'|]; [|done].
  intros [= <-]. by rewrite (IH bs' eq_refl).
Qed.

Lemma write_chunks_unencodable (chunks : list str) :
  utf8_encode (concat chunks) = None -> (write_chunks chunks).2 = false.
Proof.
  induction chunks as [|c chunks IH]; [done|].
  cbn [concat write_chunks]. rewrite utf8_encode_app.
  destruct (utf8_encode c) as [bs|]; [|done].
  destruct (utf8_encode (concat chunks)) as [bs'|]; [done|].
  intros _. specialize (IH eq_refl).
  by destruct (write_chunks chunks).
Qed.

Lemma item_chunks_concat (chunks : value float -> list str)
    (enc : value float -> str) (buf : str) (o : value float) :
  concat (chunks o) = enc o ->
  concat (item_chunks chunks enc buf o) = buf ++ enc o.
Proof.
  intros Ho. unfold item_chunks. destruct (is_container o); cbn [concat].
  - by rewrite Ho.
  - by rewrite app_nil_r.
Qed.

Lemma member_chunks_concat (chunks : value float -> list str)
    (enc : value float -> str) (kv : str * value float) :
  concat (chunks kv.2) = enc kv.2 ->
  concat (member_chunks chunks enc kv) = encode_member enc kv.
Proof.
  intros Ho. unfold member_chunks, encode_member.
  destruct (is_container kv.2); cbn [concat].
  - by rewrite Ho.
  - by rewrite app_nil_r.
Qed.

Lemma list_chunks_concat (chunks : value float -> list str)
    (enc : value float -> str) (level : nat) (lst : list (value float)) :
  Forall (fun o => concat (chunks o) = enc o) lst ->
  concat (list_chunks chunks enc level lst) = iterencode_list enc level lst.
Proof.
  intros H. destruct H as [|x xs Hx Hxs]; [done|].
  unfold list_chunks, iterencode_list.
  rewrite !concat_app, item_chunks_concat by done.
  assert (Hrest : forall sep,
            concat (flat_map (item_chunks chunks enc sep) xs)
            = flat_map (fun y => sep ++ enc y) xs).
  { intros sep. induction Hxs as [|y ys Hy Hys IH]; [done|].
    cbn [flat_map]. by rewrite concat_app, item_chunks_concat, IH. }
  rewrite Hrest. cbn [concat]. by rewrite app_nil_r, <- !app_assoc.
Qed.

Lemma dict_chunks_concat (chunks : value float -> list str)
    (enc : value float -> str) (level : nat) (dct : dict float) :
  Forall (fun kv => concat (chunks kv.2) = enc kv.2) dct ->
  concat (dict_chunks chunks enc level dct) = iterencode_dict enc level dct.
Proof.
  intros H. destruct H as [|kv kvs Hkv Hkvs]; [done|].
  unfold dict_chunks, iterencode_dict.
  cbn [concat]. rewrite !concat_app, member_chunks_concat by done.
  assert (Hrest : forall sep,
            concat (flat_map (fun kv' => sep :: member_chunks chunks enc kv')
                      kvs)
            = flat_map (fun kv' => sep ++ encode_member enc kv') kvs).
  { intros sep. induction Hkvs as [|y ys Hy Hys IH]; [done|].
    cbn [flat_map app concat].
    rewrite concat_app, member_chunks_concat, IH by done.
    by rewrite app_assoc. }
  rewrite Hrest. cbn [concat]. by rewrite app_nil_r.
Qed.

(** The chunks, one after the other, are the text of the document. *)
Lemma iterencode_chunks_concat (v : value float) (level : nat) :
  concat (iterencode_chunks level v) = iterencode level v.
Proof.
  revert level.
  induction v as [|b|n|f|s|l IH|d IH] using value_ind'; intros level;
    cbn [iterencode_chunks iterencode concat]; try by rewrite app_nil_r.
  - apply list_chunks_concat.
    eapply Forall_impl; [exact IH|]. intros o Ho. apply Ho.
  - apply dict_chunks_concat.
    eapply Forall_impl; [exact IH|]. intros kv Hkv. apply Hkv.
Qed.

(** What [json.dump] hands to the file, by the text of the document. *)
Lemma write_chunks_dumps (v : value float) :
  write_chunks (iterencode_chunks 0 v)
  = match utf8_encode (dumps v) with
    | Some bytes => (bytes, true)
    | None => ((write_chunks (iterencode_chunks 0 v)).1, false)
    end.
Proof.
  unfold dumps. rewrite <- (iterencode_chunks_concat v 0).
  destruct (utf8_encode (concat (iterencode_chunks 0 v))) as [bytes|] eqn:E.
  - by apply write_chunks_encoded.
  - apply write_chunks_unencodable in E.
    destruct (write_chunks (iterencode_chunks 0 v)); simpl in *; congruence.
Qed.

(** The document of a mapping is never empty: it starts with a brace. *)
Lemma dumps_dict_bytes (d : dict float) (bytes : list N) :
  utf8_encode (dumps (VDict d)) = Some bytes ->
  exists bytes', bytes = 123 :: bytes'.
Proof.
  unfold dumps. cbn [iterencode]. unfold iterencode_dict.
  destruct d as [|kv kvs].
  - intros [= <-]. by eexists.
  - change (lit "{" ++ ?t) with (123 :: t). cbn [utf8_encode].
    change (utf8_encode_char 123) with (Some [123]).
    destruct (utf8_encode _) as [bs|]; [|done].
    intros [= <-]. by eexists.
Qed.

Lemma dumps_dict_nonempty (d : dict float) (bytes : list N) :
  utf8_encode (dumps (VDict d)) = Some bytes -> bytes <> [].
Proof. by intros [bytes' ->]%dumps_dict_bytes. Qed.

(** ** [_save_data] *)

(** When nothing fails and the document can be encoded, the call
    returns: the temporary file was written and renamed to the backing
    file, which holds the document. *)
Lemma save_data_succeeds (env : environment) (st : state float)
    (temp : Path) (bytes : list N) :
  with_suffix (file_path (self st)) ".tmp" = Some temp ->
  utf8_encode (dumps (data (self st))) = Some bytes ->
  open_write_error env = None ->
  write_error env = None ->
  replace_error env = None ->
  _save_data env st
  = (Return tt,
     State (self st)
       (World (<[file_path (self st) := bytes]>
                 (base.delete temp (<[temp := bytes]> (files (os st)))))
              (calls (os st)
               ++ [OpenWrite temp; Replace temp (file_path (self st))])
              (stdout (os st)))).
Proof.
  destruct st as [db w]. simpl. intros Htemp Hbytes Hopen Hwrite Hreplace.
  unfold_save_data.
  rewrite Htemp; simpl. rewrite Hopen, write_chunks_dumps, Hbytes, Hwrite.
  simpl. rewrite Hreplace, lookup_insert_eq. simpl.
  by rewrite <- app_assoc.
Qed.

(** What a call that returns has done: the document is in the backing
    file, written once to the temporary file and renamed once. *)
Lemma save_data_returns (env : environment) (st st' : state float) :
  _save_data env st = (Return tt, st') ->
  exists temp bytes,
    with_suffix (file_path (self st)) ".tmp" = Some temp
    /\ utf8_encode (dumps (data (self st))) = Some bytes
    /\ self st' = self st
    /\ files (os st') !! file_path (self st) = Some bytes
    /\ calls (os st')
       = calls (os st) ++ [OpenWrite temp; Replace temp (file_path (self st))]
    /\ stdout (os st') = stdout (os st).
Proof.
  destruct st as [db w]. unfold_save_data.
  destruct (with_suffix (file_path db) ".tmp") as [temp|]; simpl; [|done].
  destruct (open_write_error env); simpl; [done|].
  rewrite write_chunks_dumps.
  destruct (utf8_encode (dumps (data db))) as [bytes|]; simpl;
    [|by destruct (write_error env), (write_chunks _).1].
  destruct (write_error env) as [e|], bytes as [|b bytes]; simpl; try done.
  all: destruct (replace_error env); simpl; [done|].
  all: rewrite lookup_insert_eq; simpl.
  all: intros [= <-]; exists temp; eexists; simpl.
  all: rewrite lookup_insert_eq, <- app_assoc; done.
Qed.

(** Whatever the outcome, the instance is as it was, and at most one
    file was opened for writing and at most one renamed. *)
Lemma save_data_calls (env : environment) (st : state float) :
  self (_save_data env st).2 = self st
  /\ exists new,
       calls (os (_save_data env st).2) = calls (os st) ++ new
       /\ (new = [] \/ exists temp,
             new = [OpenWrite temp]
             \/ new = [OpenWrite temp; Replace temp (file_path (self st))]).
Proof.
  destruct st as [db w]. unfold_save_data.
  destruct (with_suffix (file_path db) ".tmp") as [temp|]; simpl;
    [|split; [done|]; exists []; rewrite app_nil_r; auto].
  destruct (open_write_error env); simpl;
    [split; [done|]; exists [OpenWrite temp]; eauto|].
  destruct (write_chunks (iterencode_chunks 0 (data db))) as [bytes encoded].
  destruct (write_error env) as [e|], bytes as [|b bytes], encoded; simpl;
    try (split; [done|]; exists [OpenWrite temp]; by eauto).
  all: destruct (replace_error env); simpl; rewrite ?lookup_insert_eq; simpl.
  all: split; [done|]; exists [OpenWrite temp; Replace temp (file_path db)];
    rewrite <- app_assoc; eauto.
Qed.

(** With a temporary file to write, the call always opens it, and
    renames it at most once. *)
Lemma save_data_attempts (env : environment) (st : state float)
    (temp : Path) :
  with_suffix (file_path (self st)) ".tmp" = Some temp ->
  calls (os (_save_data env st).2) = calls (os st) ++ [OpenWrite temp]
  \/ calls (os (_save_data env st).2)
     = calls (os st) ++ [OpenWrite temp; Replace temp (file_path (self st))].
Proof.
  destruct st as [db w]. simpl. intros Htemp. unfold_save_data.
  rewrite Htemp; simpl.
  destruct (open_write_error env); simpl; [by left|].
  destruct (write_chunks (iterencode_chunks 0 (data db))) as [bytes encoded].
  destruct (write_error env) as [e|], bytes as [|b bytes], encoded; simpl;
    try (by left).
  all: destruct (replace_error env); simpl; rewrite ?lookup_insert_eq; simpl.
  all: right; by rewrite <- app_assoc.
Qed.

(** A call that returns on a mapping met no failure. *)
Lemma save_data_returns_no_fault (env : environment) (st st' : state float)
    (d : dict float) :
  data (self st) = VDict d ->
  _save_data env st = (Return tt, st') ->
  open_write_error env = None /\ write_error env = None
  /\ replace_error env = None.
Proof.
  destruct st as [db w]. simpl. intros Hd. unfold_save_data.
  destruct (with_suffix (file_path db) ".tmp") as [temp|]; simpl; [|done].
  destruct (open_write_error env); simpl; [done|].
  rewrite write_chunks_dumps, Hd.
  destruct (utf8_encode (dumps (VDict d))) as [bytes|] eqn:Hb; simpl;
    [|by destruct (write_error env), (write_chunks _).1].
  apply dumps_dict_bytes in Hb as [bytes' ->].
  destruct (write_error env) as [e|]; simpl; [done|].
  destruct (replace_error env); simpl; done.
Qed.

(** When the write or the rename fails, the caller gets an [IOError]
    whose context is the failure, and a backing file that is not the
    temporary file itself is as it was. *)
Lemma save_data_fails (env : environment) (st : state float)
    (temp : Path) (bytes : list N) (e : os_error) :
  with_suffix (file_path (self st)) ".tmp" = Some temp ->
  utf8_encode (dumps (data (self st))) = Some bytes ->
  bytes <> [] ->
  open_write_error env = None ->
  write_error env = Some e
  \/ (write_error env = None /\ replace_error env = Some e) ->
  (_save_data env st).1 = Raise (IOError (file_path (self st)) (OSError e))
  /\ self (_save_data env st).2 = self st
  /\ (temp <> file_path (self st) ->
      files (os (_save_data env st).2) !! file_path (self st)
      = files (os st) !! file_path (self st)).
Proof.
  destruct st as [db w]. simpl. intros Htemp Hbytes Hne Hopen Hfail.
  unfold_save_data.
  rewrite Htemp; simpl. rewrite Hopen, write_chunks_dumps, Hbytes; simpl.
  destruct bytes as [|b bytes]; [done|].
  destruct Hfail as [Hw | [Hw Hr]]; rewrite Hw; simpl.
  - repeat split. intros Hne'. by rewrite lookup_insert_ne.
  - rewrite Hr; simpl. repeat split.
    intros Hne'. by rewrite lookup_insert_ne.
Qed.

(** When a chunk of the document cannot be encoded and the disk takes
    what is written, the [UnicodeEncodeError] passes the handler, and
    the temporary file is left with the chunks before that one. *)
Lemma save_data_unencodable (env : environment) (st : state float)
    (temp : Path) :
  with_suffix (file_path (self st)) ".tmp" = Some temp ->
  open_write_error env = None ->
  write_error env = None ->
  utf8_encode (dumps (data (self st))) = None ->
  _save_data env st
  = (Raise UnicodeEncodeError,
     State (self st)
       (set_file temp (write_chunks (iterencode_chunks 0 (data (self st)))).1
          (log (OpenWrite temp) (os st)))).
Proof.
  destruct st as [db w]. simpl. intros Htemp Hopen Hwrite Henc.
  unfold_save_data.
  rewrite Htemp; simpl. by rewrite Hopen, write_chunks_dumps, Henc, Hwrite.
Qed.

Arguments _save_data : simpl never.

Lemma save_data_in_sync (env : environment) (st st' : state float) :
  representable (data (self st)) ->
  _save_data env st = (Return tt, st') -> in_sync st'.
Proof.
  intros Hrep H.
  apply save_data_returns in H as (temp & bytes & _ & Hb & Hself & Hf & _).
  exists bytes. rewrite Hself. split; [done|].
  by apply json_load_dumps.
Qed.

(** ** Memory and disk after a call that changes the mapping *)

Lemma run_mutation_returns (env : environment) (m : mutation float)
    (st st' : state float) :
  representable (data (self st)) ->
  mutation_representable m ->
  run_mutation env m st = (Return true, st') ->
  in_sync st'
  /\ file_path (self st') = file_path (self st)
  /\ representable (data (self st')).
Proof.
  intros Hrep Hm. destruct st as [[path d] w]. simpl in Hrep.
  assert (Hsave : forall d' st1,
            representable d' ->
            _save_data env (State (mkDatabase path d') w) = (Return tt, st1) ->
            in_sync st1 /\ file_path (self st1) = path
            /\ representable (data (self st1))).
  { intros d' st1 Hd' H.
    split; [exact (save_data_in_sync env (State (mkDatabase path d') w) _ Hd' H)|].
    apply save_data_returns in H as (temp & bytes & _ & _ & Hs & _).
    rewrite Hs. done. }
  destruct m as [key v|key|updates|]; simpl in Hm;
    unfold run_mutation, set, delete, update, clear, bind, get_self,
      of_outcome, set_data, ret; simpl.
  - destruct d as [| | | | | |d]; simpl; try done.
    destruct (_save_data env _) as [[[]|e] st1] eqn:E; [|done].
    intros [= <-]. eapply Hsave; [|exact E].
    by apply representable_setitem.
  - destruct (value_contains d key) as [[|]|e] eqn:Hc; simpl; try done.
    destruct d as [| | | | | |d]; simpl; try done.
    destruct (_save_data env _) as [[[]|e] st1] eqn:E; [|done].
    intros [= <-]. eapply Hsave; [|exact E].
    by apply representable_delitem.
  - destruct d as [| | | | | |d]; simpl; try done.
    destruct (_save_data env _) as [[[]|e] st1] eqn:E; [|done].
    intros [= <-]. eapply Hsave; [|exact E].
    by apply representable_update.
  - destruct d as [| | | | |l|d]; simpl; try done;
      (destruct (_save_data env _) as [[[]|e] st1] eqn:E; [|done]);
      intros [= <-]; (eapply Hsave; [|exact E]); by repeat constructor.
Qed.

(** C1.  When a call of [set], [update] or [clear] returns, or a call of
    [delete] returns [True], the backing file holds a document that
    [json.load] reads as exactly the value of [data] in memory. *)
Theorem mutation_in_sync (env : environment) (m : mutation float)
    (st st' : state float) :
  representable (data (self st)) ->
  mutation_representable m ->
  run_mutation env m st = (Return true, st') ->
  in_sync st'.
Proof. intros Hrep Hm H. by apply (run_mutation_returns env m st st'). Qed.

(** ** Construction *)

Lemma init_reads (env : environment) (path : Path) (w : world)
    (bytes : list N) :
  mkdir_error env = None -> read_error env = None ->
  files w !! path = Some bytes ->
  __init__ env path w
  = match json_load bytes with
    | Return v =>
        (Return (mkDatabase path v),
         log (OpenRead path) (log (Mkdir (parent path)) w))
    | Raise e =>
        if is_FileNotFoundError e then
          (Return (mkDatabase path (VDict [])),
           log (OpenRead path) (log (Mkdir (parent path)) w))
        else if is_JSONDecodeError e then
          (Return (mkDatabase path (VDict [])),
           World (files w)
                 (calls w ++ [Mkdir (parent path); OpenRead path])
                 (stdout w ++ [warning path]))
        else
          (Raise e, log (OpenRead path) (log (Mkdir (parent path)) w))
    end.
Proof.
  intros Hmk Hrd Hf.
  unfold __init__, _ensure_directory_exists, mkdir, load_data, try_except,
    bind, read_bytes, of_outcome, print, ret; simpl.
  rewrite Hmk, Hrd; simpl. rewrite Hf.
  destruct (json_load bytes) as [v|e]; simpl; [done|].
  destruct e as [[]|p c| | | | | | | |]; simpl; try done.
  by rewrite <- app_assoc.
Qed.

Lemma init_missing (env : environment) (path : Path) (w : world) :
  mkdir_error env = None ->
  read_error env = Some ENOENT
  \/ (read_error env = None /\ files w !! path = None) ->
  __init__ env path w
  = (Return (mkDatabase path (VDict (float:=float) [])),
     log (OpenRead path) (log (Mkdir (parent path)) w)).
Proof.
  intros Hmk Hrd.
  unfold __init__, _ensure_directory_exists, mkdir, load_data, try_except,
    bind, read_bytes, of_outcome, print, ret; simpl.
  rewrite Hmk; simpl.
  destruct Hrd as [-> | [-> ->]]; done.
Qed.

(** C8.  A backing file whose document is any JSON value, a mapping or
    not, is read without error and the value is the [data] of the new
    instance as it is: nothing checks that it is a mapping. *)
Theorem init_loads_any_document (env : environment) (path : Path)
    (w : world) (bytes : list N) (v : value float) :
  mkdir_error env = None -> read_error env = None ->
  files w !! path = Some bytes ->
  json_load bytes = Return v ->
  __init__ env path w
  = (Return (mkDatabase path v),
     log (OpenRead path) (log (Mkdir (parent path)) w)).
Proof.
  intros Hmk Hrd Hf Hv. by rewrite (init_reads _ _ _ _ Hmk Hrd Hf), Hv.
Qed.

(** X14.  When the bytes of the backing file are UTF-8 text that is not
    a JSON document, the construction returns an instance whose [data]
    is the empty mapping; the file is left as it is and one warning is
    printed.  Bytes that are not UTF-8 are not recovered from. *)
Theorem init_recovers_from_malformed (env : environment) (path : Path)
    (w : world) (bytes : list N) (text : str) :
  mkdir_error env = None -> read_error env = None ->
  files w !! path = Some bytes ->
  utf8_decode bytes = Some text ->
  decode (float:=float) text = Malformed ->
  exists w',
    __init__ env path w = (Return (mkDatabase path (VDict [])), w')
    /\ files w' = files w
    /\ stdout w' = stdout w ++ [warning path].
Proof.
  intros Hmk Hrd Hf Ht Hd.
  rewrite (init_reads _ _ _ _ Hmk Hrd Hf).
  unfold json_load. rewrite Ht, Hd. simpl. eauto.
Qed.

(** C10.  A failure of the read other than a missing file is raised to
    the caller of the constructor, and so are bytes that are not UTF-8;
    and when the constructor returns, either the file was read as the
    document that is now [data], or [data] is the empty mapping and the
    file was missing or did not hold a JSON document. *)
Theorem init_propagates_other_failures (env : environment) (path : Path)
    (w : world) :
  mkdir_error env = None ->
  (forall e, read_error env = Some e -> e <> ENOENT ->
     (__init__ (float:=float) env path w).1 = Raise (OSError e))
  /\ (forall bytes, read_error env = None ->
        files w !! path = Some bytes -> utf8_decode bytes = None ->
        (__init__ (float:=float) env path w).1 = Raise UnicodeDecodeError)
  /\ (forall (db : Database float) w',
        __init__ env path w = (Return db, w') ->
        (exists bytes, read_error env = None
           /\ files w !! path = Some bytes
           /\ json_load bytes = Return (data db))
        \/ (data db = VDict []
            /\ (read_error env = Some ENOENT
                \/ (read_error env = None /\ files w !! path = None)
                \/ exists bytes, read_error env = None
                     /\ files w !! path = Some bytes
                     /\ json_load (float:=float) bytes
                        = Raise JSONDecodeError))).
Proof.
  intros Hmk. split; [|split].
  - intros e He Hne.
    unfold __init__, _ensure_directory_exists, mkdir, load_data, try_except,
      bind, read_bytes, of_outcome, print, ret; simpl.
    rewrite Hmk, He; simpl. by destruct e.
  - intros bytes Hrd Hf Hb.
    rewrite (init_reads _ _ _ _ Hmk Hrd Hf).
    unfold json_load. by rewrite Hb.
  - intros db w' H.
    destruct (read_error env) as [e|] eqn:Hrd.
    + assert (e = ENOENT) as ->.
      { revert H.
        unfold __init__, _ensure_directory_exists, mkdir, load_data,
          try_except, bind, read_bytes, of_outcome, print, ret; simpl.
        rewrite Hmk, Hrd; simpl. by destruct e. }
      rewrite init_missing in H by auto. inversion H; subst. auto.
    + destruct (files w !! path) as [bytes|] eqn:Hf.
      * rewrite (init_reads _ _ _ _ Hmk Hrd Hf) in H.
        destruct (json_load bytes) as [v|e] eqn:Hl.
        { inversion H; subst. left. eauto. }
        assert (He : e = JSONDecodeError \/ e = UnicodeDecodeError
                     \/ e = RecursionError).
        { revert Hl. unfold json_load. repeat case_match; naive_solver. }
        destruct He as [-> | [-> | ->]]; simpl in H; try done.
        inversion H; subst. right. split; [done|]. right. right. eauto.
      * rewrite init_missing in H by auto. inversion H; subst.
        right. split; [done|]. right. left. done.
Qed.

(** ** A second instance on the same path *)



(** ** [update] *)

(** C5.  On an instance whose data is a mapping, [update] stores every
    entry of its argument and keeps the value of every other key,
    however many entries there are.  It opens the temporary file once
    and renames it at most once.  Where no system call fails and the
    merged document can be encoded, it returns, having written that
    document once to the temporary file and renamed the file once to
    the backing file; and it returns in no other case. *)
Theorem update_merges_and_persists_once (env : environment)
    (updates d : dict float) (st : state float) (temp : Path) :
  data (self st) = VDict d ->
  NoDup updates.*1 ->
  with_suffix (file_path (self st)) ".tmp" = Some temp ->
  let r := update env updates st in
  let path := file_path (self st) in
  data (self r.2) = VDict (dict_update d updates)
  /\ (forall key v, dict_get updates key = Some v ->
        dict_get (dict_update d updates) key = Some v)
  /\ (forall key, dict_get updates key = None ->
        dict_get (dict_update d updates) key = dict_get d key)
  /\ (calls (os r.2) = calls (os st) ++ [OpenWrite temp]
      \/ calls (os r.2) = calls (os st) ++ [OpenWrite temp; Replace temp path])
  /\ (forall bytes,
        open_write_error env = None -> write_error env = None ->
        replace_error env = None ->
        utf8_encode (dumps (VDict (dict_update d updates))) = Some bytes ->
        r = (Return tt,
             State (mkDatabase path (VDict (dict_update d updates)))
               (World (<[path := bytes]>
                         (base.delete temp (<[temp := bytes]> (files (os st)))))
                      (calls (os st) ++ [OpenWrite temp; Replace temp path])
                      (stdout (os st)))))
  /\ (r.1 = Return tt ->
      open_write_error env = None /\ write_error env = None
      /\ replace_error env = None
      /\ exists bytes,
           utf8_encode (dumps (VDict (dict_update d updates))) = Some bytes).
Proof.
  intros Hd Hnd Htemp. destruct st as [[path d0] w].
  simpl in Hd, Htemp. subst d0. cbn zeta.
  unfold update, bind, get_self, of_outcome, set_data, ret; simpl.
  set (st1 := State (mkDatabase path (VDict (dict_update d updates))) w).
  destruct (save_data_calls env st1) as (Hself & _).
  pose proof (save_data_attempts env st1 temp Htemp) as Hcalls.
  split; [by rewrite Hself|].
  split; [intros key v Hk; by rewrite dict_get_update, Hk|].
  split; [intros key Hk; by rewrite dict_get_update, Hk|].
  split; [exact Hcalls|].
  split.
  - intros bytes Hopen Hwrite Hreplace Hbytes.
    by rewrite (save_data_succeeds env st1 temp bytes
                  Htemp Hbytes Hopen Hwrite Hreplace).
  - intros Hret.
    destruct (_save_data env st1) as [[[]|e] st2] eqn:E; [|done].
    destruct (save_data_returns_no_fault env st1 st2 _ eq_refl E)
      as (Hopen & Hwrite & Hreplace).
    apply save_data_returns in E as (temp' & bytes & _ & Hbytes & _).
    eauto 6.
Qed.

(** [set] stores the value before it saves, and when the data is no
    mapping it raises before it does anything. *)
Lemma set_data_after (env : environment) (key : str) (v : value float)
    (st : state float) :
  data (self (set env key v st).2)
  = match data (self st) with
    | VDict d => VDict (dict_setitem d key v)
    | other => other
    end.
Proof.
  destruct st as [[path d] w].
  unfold set, bind, get_self, of_outcome, set_data, ret; simpl.
  destruct d as [| | | | | |d]; simpl; try done.
  set (st1 := State (mkDatabase path (VDict (dict_setitem d key v))) w).
  destruct (save_data_calls env st1) as (Hself & _).
  destruct (_save_data env st1) as [[[]|e] st2]; simpl in *; by rewrite Hself.
Qed.

(** ** [delete] *)

Lemma delete_absent (env : environment) (key : str) (d : dict float)
    (st : state float) :
  data (self st) = VDict d -> dict_contains d key = false ->
  delete env key st = (Return false, st).
Proof.
  destruct st as [[path d0] w]. simpl. intros -> Hc.
  unfold delete, bind, get_self, of_outcome, ret; simpl. by rewrite Hc.
Qed.

Lemma delete_present (env : environment) (key : str) (d : dict float)
    (st : state float) :
  data (self st) = VDict d -> dict_contains d key = true ->
  delete env key st
  = let '(o, st') :=
      _save_data env
        (State (mkDatabase (file_path (self st)) (VDict (dict_delitem d key)))
               (os st)) in
    (match o with Return _ => Return true | Raise e => Raise e end, st').
Proof.
  destruct st as [[path d0] w]. simpl. intros -> Hc.
  unfold delete, bind, get_self, of_outcome, set_data, ret; simpl.
  rewrite Hc; simpl. by destruct (_save_data env _) as [[[]|e] st2].
Qed.

(** C6.  On an instance whose data is a mapping: [delete] of a key that
    is not there returns [False] and leaves the instance and the world
    as they were, so nothing is written.  [delete] of a key that is
    there removes it and keeps every other key; it opens the temporary
    file once and renames it at most once; where no system call fails
    and the document can be encoded it returns [True], having written
    the document once and renamed the file once to the backing file; it
    returns [True] in no other case and never returns [False].  After
    that, [delete] of the key returns [False] and changes nothing, and
    after a [set] of the key it is there again. *)
Theorem delete_semantics (env : environment) (key : str) (d : dict float)
    (st : state float) (temp : Path) :
  data (self st) = VDict d ->
  NoDup d.*1 ->
  with_suffix (file_path (self st)) ".tmp" = Some temp ->
  let r := delete env key st in
  let path := file_path (self st) in
  (dict_contains d key = false -> r = (Return false, st))
  /\ (dict_contains d key = true ->
      data (self r.2) = VDict (dict_delitem d key)
      /\ dict_contains (dict_delitem d key) key = false
      /\ (forall key', key <> key' ->
            dict_get (dict_delitem d key) key' = dict_get d key')
      /\ r.1 <> Return false
      /\ (calls (os r.2) = calls (os st) ++ [OpenWrite temp]
          \/ calls (os r.2)
             = calls (os st) ++ [OpenWrite temp; Replace temp path])
      /\ (forall bytes,
            open_write_error env = None -> write_error env = None ->
            replace_error env = None ->
            utf8_encode (dumps (VDict (dict_delitem d key))) = Some bytes ->
            r = (Return true,
                 State (mkDatabase path (VDict (dict_delitem d key)))
                   (World (<[path := bytes]>
                             (base.delete temp
                                (<[temp := bytes]> (files (os st)))))
                          (calls (os st)
                           ++ [OpenWrite temp; Replace temp path])
                          (stdout (os st)))))
      /\ (r.1 = Return true ->
          open_write_error env = None /\ write_error env = None
          /\ replace_error env = None
          /\ exists bytes,
               utf8_encode (dumps (VDict (dict_delitem d key))) = Some bytes)
      /\ (forall env', delete env' key r.2 = (Return false, r.2))
      /\ (forall env' v,
            data (self (set env' key v r.2).2)
            = VDict (dict_setitem (dict_delitem d key) key v)
            /\ dict_contains (dict_setitem (dict_delitem d key) key v) key
               = true)).
Proof.
  intros Hd Hnd Htemp. cbn zeta. split; [by apply delete_absent|].
  intros Hc. rewrite (delete_present env key d st Hd Hc).
  destruct st as [[path d0] w]. simpl in Hd, Htemp. subst d0. simpl.
  set (st1 := State (mkDatabase path (VDict (dict_delitem d key))) w).
  destruct (save_data_calls env st1) as (Hself & _).
  pose proof (save_data_attempts env st1 temp Htemp) as Hcalls.
  assert (Habsent := dict_delitem_absent d key Hnd).
  assert (Hdata : data (self (_save_data env st1).2)
                  = VDict (dict_delitem d key)) by (by rewrite Hself).
  assert (Hsucceeds := fun bytes => save_data_succeeds env st1 temp bytes Htemp).
  assert (Hreturns := save_data_returns_no_fault env st1).
  assert (Hbytes := save_data_returns env st1).
  destruct (_save_data env st1) as [o st2]. simpl in *.
  split; [done|]. split; [done|].
  split; [intros key' Hne; by apply dict_get_delitem_ne|].
  split; [by destruct o|].
  split; [exact Hcalls|].
  split.
  { intros bytes Hopen Hwrite Hreplace Hb.
    specialize (Hsucceeds bytes Hb Hopen Hwrite Hreplace).
    by inversion Hsucceeds. }
  split.
  { intros Hret. destruct o as [[]|e]; [|done].
    destruct (Hreturns st2 _ eq_refl eq_refl) as (Hopen & Hwrite & Hreplace).
    destruct (Hbytes st2 eq_refl) as (temp' & bytes & _ & Hb & _).
    eauto 6. }
  assert (Hagain : forall env',
            delete env' key st2 = (Return false, st2))
    by (intros env'; by eapply delete_absent).
  split; [by destruct o|].
  assert (Hset : forall env' v,
            data (self (set env' key v st2).2)
            = VDict (dict_setitem (dict_delitem d key) key v)
            /\ dict_contains (dict_setitem (dict_delitem d key) key v) key
               = true).
  { intros env' v. rewrite set_data_after, Hdata. split; [done|].
    unfold dict_contains. rewrite dict_get_setitem.
    by destruct (decide (key = key)). }
  by destruct o.
Qed.

(** ** [set] *)

Lemma get_outcome (key : str) (default : value float) (st : state float) :
  (get key default st).1 = value_get (data (self st)) key default.
Proof. done. Qed.

Lemma exists_outcome (key : str) (st : state float) :
  (exists_ key st).1 = value_contains (data (self st)) key.
Proof. done. Qed.

(** C9.  [set] of a key leaves what [get] and [exists] return for any
    other key as it was, whatever the state and whether or not the
    call returns. *)
Theorem set_leaves_other_keys (env : environment) (key key' : str)
    (v default : value float) (st : state float) :
  key <> key' ->
  (get key' default (set env key v st).2).1 = (get key' default st).1
  /\ (exists_ key' (set env key v st).2).1 = (exists_ key' st).1.
Proof.
  intros Hne. rewrite !get_outcome, !exists_outcome, set_data_after.
  destruct (data (self st)) as [| | | | | |d]; try done.
  simpl. unfold dict_contains. rewrite dict_get_setitem.
  by destruct (decide (key = key')).
Qed.

(** When the write or the rename fails under [set], the caller gets the
    [IOError], the mapping keeps the new value, and a backing file that
    is not the temporary file itself is as it was. *)
Lemma set_persist_failure (env : environment) (key : str) (v : value float)
    (d : dict float) (st : state float) (temp : Path) (bytes : list N)
    (e : os_error) :
  data (self st) = VDict d ->
  with_suffix (file_path (self st)) ".tmp" = Some temp ->
  utf8_encode (dumps (VDict (dict_setitem d key v))) = Some bytes ->
  open_write_error env = None ->
  write_error env = Some e
  \/ (write_error env = None /\ replace_error env = Some e) ->
  let r := set env key v st in
  r.1 = Raise (IOError (file_path (self st)) (OSError e))
  /\ data (self r.2) = VDict (dict_setitem d key v)
  /\ (temp <> file_path (self st) ->
      files (os r.2) !! file_path (self st)
      = files (os st) !! file_path (self st)).
Proof.
  intros Hd Htemp Hbytes Hopen Hfail r. subst r.
  split; [|split; [by rewrite set_data_after, Hd|]].
  - destruct st as [[path d0] w]. simpl in *. subst d0.
    unfold set, bind, get_self, of_outcome, set_data, ret; simpl.
    destruct (save_data_fails env
      (State (mkDatabase path (VDict (dict_setitem d key v))) w)
      temp bytes e Htemp Hbytes (dumps_dict_nonempty _ _ Hbytes)
      Hopen Hfail) as (Hr & _).
    destruct (_save_data env _) as [[[]|e'] st2]; simpl in *; congruence.
  - destruct st as [[path d0] w]. simpl in *. subst d0.
    unfold set, bind, get_self, of_outcome, set_data, ret; simpl.
    destruct (save_data_fails env
      (State (mkDatabase path (VDict (dict_setitem d key v))) w)
      temp bytes e Htemp Hbytes (dumps_dict_nonempty _ _ Hbytes)
      Hopen Hfail) as (_ & _ & Hf).
    intros Hne. specialize (Hf Hne).
    destruct (_save_data env _) as [[[]|e'] st2]; simpl in *; done.
Qed.

(** ** What [get_all] shares *)

Lemma mapM_ext_Some {A B} (f g : A -> option B) (l : list A) (k : list B) :
  (forall x y, x ∈ l -> f x = Some y -> g x = Some y) ->
  mapM f l = Some k -> mapM g l = Some k.
Proof.
  intros Hfg Hf. apply mapM_Some in Hf. apply mapM_Some.
  induction Hf as [|x y l k Hxy Hlk IH]; constructor.
  - apply Hfg; [by left | done].
  - apply IH. intros x' y' Hin. apply Hfg. by right.
Qed.

(** A new object changes no document read from the objects there
    were. *)
Lemma snapshot_insert_fresh (h : gmap address (object float)) (a' : address)
    (o : object float) (depth : nat) :
  h !! a' = None ->
  forall r t, snapshot depth h r = Some t ->
    snapshot depth (<[a' := o]> h) r = Some t.
Proof.
  intros Hfresh. induction depth as [|depth IH]; intros r t; [done|].
  destruct r as [| | | | |a]; cbn [snapshot]; try done.
  destruct (h !! a) as [oa|] eqn:Ha; [|done].
  assert (a' <> a) by congruence.
  rewrite lookup_insert_ne, Ha by done.
  destruct oa as [items|items].
  - destruct (mapM (snapshot depth h) items) as [ts|] eqn:E; [|done].
    intros [= <-].
    by rewrite (mapM_ext_Some _ (snapshot depth (<[a':=o]> h)) _ _
                  (fun x y _ => IH x y) E).
  - destruct (mapM (fun kv => pair kv.1 <$> snapshot depth h kv.2) items)
      as [ts|] eqn:E; [|done].
    intros [= <-].
    assert (E' : mapM (fun kv => pair kv.1
                         <$> snapshot depth (<[a':=o]> h) kv.2) items
                 = Some ts).
    { revert E. apply mapM_ext_Some. intros [k x] [k' y] _. simpl.
      destruct (snapshot depth h x) as [tx|] eqn:Ex; [|done].
      by rewrite (IH _ _ Ex). }
    by rewrite E'.
Qed.

(** C7, as the code has it.  [get_all] returns a new object with the
    items of [data]: it reads as the same document, and whatever is
    stored afterwards in the new object itself, [data] reads as it did.
    (The items are the same references: [get_all_shares_nested] shows a
    change made through one of them.) *)
Theorem get_all_copies_top_level (h : gmap address (object float)) (a : address)
    (o : object float) (depth : nat) (t : value float) :
  h !! a = Some o ->
  snapshot depth h (RObj a) = Some t ->
  exists a',
    get_all (RObj a) h = (Return (RObj a'), <[a' := o]> h)
    /\ h !! a' = None
    /\ snapshot depth (<[a' := o]> h) (RObj a') = Some t
    /\ forall o',
         snapshot depth (<[a' := o']> (<[a' := o]> h)) (RObj a) = Some t.
Proof.
  intros Ha Ht.
  set (a' := fresh (dom h)).
  assert (Hfresh : h !! a' = None).
  { apply not_elem_of_dom. apply is_fresh. }
  exists a'. split; [|split; [done|split]].
  - unfold get_all, copy. by rewrite Ha.
  - destruct depth as [|depth]; [done|]. cbn [snapshot] in Ht |- *.
    rewrite Ha in Ht. rewrite lookup_insert_eq.
    destruct o as [items|items].
    + destruct (mapM (snapshot depth h) items) as [ts|] eqn:E; [|done].
      by rewrite (mapM_ext_Some _ (snapshot depth (<[a':=OList items]> h)) _ _
                    (fun x y _ => snapshot_insert_fresh h a' _ depth Hfresh x y)
                    E).
    + destruct (mapM (fun kv => pair kv.1 <$> snapshot depth h kv.2) items)
        as [ts|] eqn:E; [|done].
      assert (E' : mapM (fun kv => pair kv.1
                           <$> snapshot depth (<[a':=ODict items]> h) kv.2)
                     items = Some ts).
      { revert E. apply mapM_ext_Some. intros [k x] [k' y] _. simpl.
        destruct (snapshot depth h x) as [tx|] eqn:Ex; [|done].
        by rewrite (snapshot_insert_fresh h a' _ depth Hfresh _ _ Ex). }
      by rewrite E'.
  - intros o'. rewrite insert_insert_eq.
    by apply snapshot_insert_fresh.
Qed.
End Theory.

(** * The statements at concrete inputs *)

Lemma representable_empty : representable (VDict (float:=str) []).
Proof. constructor; constructor. Defined.

Lemma representable_two_keys : representable (VDict two_keys).
Proof.
  constructor.
  - repeat constructor; vm_compute; intros H; inversion H as [|? ? ? H'];
      subst; inversion H'.
  - repeat constructor.
Defined.

(** [set("theme", "dark")] on the new instance leaves file and memory
    in agreement. *)
Lemma mutation_in_sync_witness :
  in_sync (run_mutation no_fault (SetCall theme dark) new_store).2.
Proof.
  apply (mutation_in_sync no_fault (SetCall theme dark) new_store).
  - exact representable_empty.
  - constructor.
  - vm_compute. reflexivity.
Defined.


(** The file of the repository's test, [{ invalid json]. *)
Lemma init_recovers_witness :
  exists w',
    __init__ no_fault settings_path (world_with malformed_text)
    = (Return (mkDatabase settings_path (VDict (float:=str) [])), w')
    /\ files w' = files (world_with malformed_text)
    /\ stdout w' = stdout (world_with malformed_text) ++ [warning settings_path].
Proof.
  apply (init_recovers_from_malformed no_fault settings_path
           (world_with malformed_text) malformed_text malformed_text).
  - reflexivity.
  - reflexivity.
  - vm_compute. reflexivity.
  - vm_compute. reflexivity.
  - vm_compute. reflexivity.
Defined.

(** A file holding [[1,2]]: the data of the instance is that list. *)
Lemma init_loads_list_witness :
  __init__ no_fault settings_path (world_with list_text)
  = (Return (mkDatabase settings_path (VList (float:=str) [VInt 1; VInt 2])),
     log (OpenRead settings_path)
       (log (Mkdir (parent settings_path)) (world_with list_text))).
Proof.
  apply (init_loads_any_document no_fault settings_path
           (world_with list_text) list_text).
  - reflexivity.
  - reflexivity.
  - vm_compute. reflexivity.
  - vm_compute. reflexivity.
Defined.

(** With no failure of [mkdir]: a permission error and a byte that is
    no UTF-8 reach the caller. *)
Lemma init_propagates_witness :
  (forall e, read_error no_fault = Some e -> e <> ENOENT ->
     (__init__ (float:=str) no_fault settings_path (world_with not_utf8)).1
     = Raise (OSError e))
  /\ (forall bytes, read_error no_fault = None ->
        files (world_with not_utf8) !! settings_path = Some bytes ->
        utf8_decode bytes = None ->
        (__init__ (float:=str) no_fault settings_path (world_with not_utf8)).1
        = Raise UnicodeDecodeError)
  /\ (forall (db : Database str) w',
        __init__ no_fault settings_path (world_with not_utf8) = (Return db, w') ->
        (exists bytes, read_error no_fault = None
           /\ files (world_with not_utf8) !! settings_path = Some bytes
           /\ json_load bytes = Return (data db))
        \/ (data db = VDict []
            /\ (read_error no_fault = Some ENOENT
                \/ (read_error no_fault = None
                    /\ files (world_with not_utf8) !! settings_path = None)
                \/ exists bytes, read_error no_fault = None
                     /\ files (world_with not_utf8) !! settings_path = Some bytes
                     /\ json_load (float:=str) bytes = Raise JSONDecodeError))).
Proof.
  apply (init_propagates_other_failures no_fault settings_path
           (world_with not_utf8)).
  reflexivity.
Defined.

(** [update] with two entries, one of them a key that is there, where
    nothing fails: it returns, both entries are stored and [volume] is
    kept, and the calls made are the one write and the one rename. *)
Lemma update_witness :
  (update no_fault light_and_auto_save settings_store).1 = Return tt
  /\ data (self (update no_fault light_and_auto_save settings_store).2)
     = VDict [(theme, VStr (lit "light")); (volume, VInt 80);
              (lit "auto_save", VBool true)]
  /\ calls (os (update no_fault light_and_auto_save settings_store).2)
     = [OpenWrite settings_temp; Replace settings_temp settings_path]
  /\ files (os (update no_fault light_and_auto_save settings_store).2)
       !! settings_path
     = utf8_encode (dumps (VDict (dict_update two_keys light_and_auto_save)))
  /\ files (os (update no_fault light_and_auto_save settings_store).2)
       !! settings_temp
     = None.
Proof.
  destruct (update_merges_and_persists_once no_fault light_and_auto_save
              two_keys settings_store settings_temp)
    as (Hdata & _ & _ & _ & Hsucceeds & _).
  - reflexivity.
  - repeat constructor; vm_compute; intros H; inversion H as [|? ? ? H'];
      subst; inversion H'.
  - vm_compute. reflexivity.
  - specialize (Hsucceeds
      (write_chunks
         (iterencode_chunks 0
            (VDict (dict_update two_keys light_and_auto_save)))).1
      eq_refl eq_refl eq_refl).
    rewrite Hsucceeds by (vm_compute; reflexivity).
    vm_compute. repeat split.
Defined.

(** [delete("missing")], and [delete("volume")] where the key is there
    and nothing fails: it returns [True] after the one write and the one
    rename, [theme] is kept, and the second [delete("volume")] returns
    [False] and makes no call. *)
Lemma delete_witness :
  delete no_fault (lit "missing") settings_store
  = (Return false, settings_store)
  /\ (delete no_fault volume settings_store).1 = Return true
  /\ data (self (delete no_fault volume settings_store).2)
     = VDict [(theme, dark)]
  /\ calls (os (delete no_fault volume settings_store).2)
     = [OpenWrite settings_temp; Replace settings_temp settings_path]
  /\ files (os (delete no_fault volume settings_store).2) !! settings_path
     = utf8_encode (dumps (VDict [(theme, dark)]))
  /\ delete no_fault volume (delete no_fault volume settings_store).2
     = (Return false, (delete no_fault volume settings_store).2)
  /\ data (self (set no_fault volume (VInt 30)
                   (delete no_fault volume settings_store).2).2)
     = VDict [(theme, dark); (volume, VInt 30)].
Proof.
  assert (Hnd : NoDup two_keys.*1).
  { repeat constructor; vm_compute; intros H; inversion H as [|? ? ? H'];
      subst; inversion H'. }
  split.
  - destruct (delete_semantics no_fault (lit "missing") two_keys
                settings_store settings_temp eq_refl Hnd)
      as (Habsent & _).
    + vm_compute. reflexivity.
    + apply Habsent. vm_compute. reflexivity.
  - destruct (delete_semantics no_fault volume two_keys
                settings_store settings_temp eq_refl Hnd)
      as (_ & Hpresent).
    + vm_compute. reflexivity.
    + destruct Hpresent
        as (_ & _ & _ & _ & _ & Hsucceeds & _ & Hagain & Hset).
      { vm_compute. reflexivity. }
      specialize (Hsucceeds
        (write_chunks
           (iterencode_chunks 0 (VDict (dict_delitem two_keys volume)))).1
        eq_refl eq_refl eq_refl).
      split; [|split; [|split; [|split; [|split]]]].
      * rewrite Hsucceeds by (vm_compute; reflexivity). reflexivity.
      * rewrite Hsucceeds by (vm_compute; reflexivity). vm_compute.
        reflexivity.
      * rewrite Hsucceeds by (vm_compute; reflexivity). vm_compute.
        reflexivity.
      * rewrite Hsucceeds by (vm_compute; reflexivity). vm_compute.
        reflexivity.
      * apply Hagain.
      * destruct (Hset no_fault (VInt 30)) as [Hdata _].
        rewrite Hdata. vm_compute. reflexivity.
Defined.

(** [set("theme", ...)] and what is read of [volume]. *)
Lemma set_leaves_other_keys_witness :
  (get volume VNone (set no_fault theme (VStr (lit "light")) settings_store).2).1
  = (get volume VNone settings_store).1
  /\ (exists_ volume (set no_fault theme (VStr (lit "light")) settings_store).2).1
     = (exists_ volume settings_store).1.
Proof.
  apply (set_leaves_other_keys no_fault theme volume (VStr (lit "light"))
           VNone settings_store).
  vm_compute. discriminate.
Defined.

(** [get_all] on the heap where the data holds a list. *)
Lemma get_all_witness :
  exists a',
    get_all (RObj 0%nat) shared_heap
    = (Return (RObj a'), <[a' := ODict [(recent_files, RObj 1%nat)]]> shared_heap)
    /\ shared_heap !! a' = None
    /\ snapshot 3 (<[a' := ODict [(recent_files, RObj 1%nat)]]> shared_heap)
         (RObj a')
       = Some (VDict [(recent_files, VList [])])
    /\ forall o',
         snapshot 3
           (<[a' := o']>
              (<[a' := ODict [(recent_files, RObj 1%nat)]]> shared_heap))
           (RObj 0%nat)
         = Some (VDict [(recent_files, VList [])]).
Proof.
  apply (get_all_copies_top_level shared_heap 0%nat
           (ODict [(recent_files, RObj 1%nat)]) 3
           (VDict [(recent_files, VList [])])).
  - reflexivity.
  - reflexivity.
Defined.

(** C7, against the claim as it is stated.  The list in the mapping
    that [get_all] returned is the list in [data]: once 1 is appended
    to it through the copy, [data] reads with the 1 in it. *)
Lemma get_all_shares_nested :
  snapshot 3 shared_heap (RObj 0%nat)
  = Some (VDict [(recent_files, VList [])])
  /\ (append_through_copy shared_heap).1 = Return tt
  /\ snapshot 3 (append_through_copy shared_heap).2 (RObj 0%nat)
     = Some (VDict [(recent_files, VList [VInt 1])]).
Proof. vm_compute. repeat split. Qed.

(** C4, where the code departs from it.  A backing file holding the one
    byte 0xFF is not a JSON document, and not even text: reading it
    raises [UnicodeDecodeError], which is none of the two exceptions
    [load_data] handles, so the constructor raises it to its caller,
    prints no warning and makes no instance. *)
Theorem init_raises_on_undecodable_file :
  json_load (float:=str) not_utf8 = Raise UnicodeDecodeError
  /\ is_JSONDecodeError UnicodeDecodeError = false
  /\ __init__ (float:=str) no_fault settings_path (world_with not_utf8)
     = (Raise UnicodeDecodeError,
        log (OpenRead settings_path)
          (log (Mkdir (parent settings_path)) (world_with not_utf8)))
  /\ stdout (__init__ (float:=str) no_fault settings_path
               (world_with not_utf8)).2 = [].
Proof. vm_compute. repeat split. Qed.

(** C2, where the code departs from it.  The temporary file of
    [cache.tmp] is [cache.tmp] itself, so that [set] on a full disk,
    besides raising the [IOError], leaves in the backing file the four
    bytes that were written, which are no JSON document; the mapping in
    memory has the new key. *)
Theorem save_failure_truncates_tmp_backing_file :
  with_suffix (file_path (self cache_store)) ".tmp"
  = Some (file_path (self cache_store))
  /\ in_sync cache_store
  /\ (set disk_full theme dark cache_store).1
     = Raise (IOError "cache.tmp" (OSError ENOSPC))
  /\ data (self (set disk_full theme dark cache_store).2)
     = VDict [(theme, dark)]
  /\ files (os (set disk_full theme dark cache_store).2) !! "cache.tmp"
     = Some [123; 10; 32; 32]
  /\ json_load (float:=str) [123; 10; 32; 32] = Raise JSONDecodeError.
Proof.
  split; [reflexivity|]. split.
  { exists (lit "{}"). split; vm_compute; reflexivity. }
  vm_compute. repeat split.
Qed.

(** * Further properties of the methods *)

Section More.

Context {float : Type} `{!Float float}.

Arguments _save_data : simpl never.

(** ** What the methods leave in memory, whatever the save does *)

Lemma clear_data_after (env : environment) (st : state float) :
  data (self (clear env st).2)
  = match data (self st) with
    | VDict _ => VDict []
    | VList _ => VList []
    | other => other
    end.
Proof.
  destruct st as [[path d] w].
  unfold clear, bind, get_self, of_outcome, set_data, ret; simpl.
  destruct d as [| | | | |l|d]; simpl; try done.
  - set (st1 := State (mkDatabase path (VList [])) w).
    destruct (save_data_calls env st1) as (Hself & _).
    destruct (_save_data env st1) as [[[]|e] st2]; simpl in *;
      by rewrite Hself.
  - set (st1 := State (mkDatabase path (VDict [])) w).
    destruct (save_data_calls env st1) as (Hself & _).
    destruct (_save_data env st1) as [[[]|e] st2]; simpl in *;
      by rewrite Hself.
Qed.

Lemma delete_data_after (env : environment) (key : str) (st : state float) :
  data (self (delete env key st).2)
  = match data (self st) with
    | VDict d => if dict_contains d key then VDict (dict_delitem d key)
                 else VDict d
    | other => other
    end.
Proof.
  destruct st as [[path d] w].
  unfold delete, bind, get_self, of_outcome, set_data, ret; simpl.
  destruct d as [|b|n|f|s|l|d]; simpl; try done.
  - by destruct (str_contains key s).
  - by destruct (existsb _ l).
  - destruct (dict_contains d key); simpl; [|done].
    set (st1 := State (mkDatabase path (VDict (dict_delitem d key))) w).
    destruct (save_data_calls env st1) as (Hself & _).
    destruct (_save_data env st1) as [[[]|e] st2]; simpl in *;
      by rewrite Hself.
Qed.

(** A call of [set] that returns has stored the value and saved. *)
Lemma set_returns (env : environment) (key : str) (v : value float)
    (st st' : state float) :
  set env key v st = (Return tt, st') ->
  exists d temp bytes,
    data (self st) = VDict d
    /\ self st' = mkDatabase (file_path (self st)) (VDict (dict_setitem d key v))
    /\ with_suffix (file_path (self st)) ".tmp" = Some temp
    /\ utf8_encode (dumps (VDict (dict_setitem d key v))) = Some bytes
    /\ files (os st') !! file_path (self st) = Some bytes
    /\ calls (os st')
       = calls (os st) ++ [OpenWrite temp; Replace temp (file_path (self st))].
Proof.
  destruct st as [[path d0] w].
  unfold set, bind, get_self, of_outcome, set_data, ret; simpl.
  destruct d0 as [| | | | | |d]; simpl; try done.
  destruct (_save_data env _) as [[[]|e] st1] eqn:E; [|done].
  intros [= <-].
  apply save_data_returns in E
    as (temp & bytes & Ht & Hb & Hs & Hf & Hc & _). simpl in *.
  exists d, temp, bytes. by rewrite Hs.
Qed.

Lemma dict_setitem_idempotent (d : dict float) (key : str) (v : value float) :
  dict_setitem (dict_setitem d key v) key v = dict_setitem d key v.
Proof.
  induction d as [|[k x] d IH]; simpl.
  - by destruct (decide (key = key)).
  - destruct (decide (k = key)) as [->|Hne]; simpl.
    + by destruct (decide (key = key)).
    + destruct (decide (k = key)); [done|]. by rewrite IH.
Qed.

(** ** [clear] *)

(** X1.  On an instance whose data is a mapping, empty or not, [clear]
    leaves the empty mapping in memory, so that [get] returns its
    default and [exists] returns [False] for every key; and when it
    returns it has written and renamed once, and the backing file holds
    the two characters of the empty document. *)
Theorem clear_empties_and_persists (env : environment) (d : dict float)
    (st : state float) :
  data (self st) = VDict d ->
  let r := clear env st in
  data (self r.2) = VDict []
  /\ (forall key default, (get key default r.2).1 = Return default)
  /\ (forall key, (exists_ key r.2).1 = Return false)
  /\ (r.1 = Return tt ->
      files (os r.2) !! file_path (self st) = Some (lit "{}")
      /\ exists temp,
           calls (os r.2)
           = calls (os st)
             ++ [OpenWrite temp; Replace temp (file_path (self st))]).
Proof.
  intros Hd r. subst r.
  assert (Hdata := clear_data_after env st). rewrite Hd in Hdata.
  split; [done|].
  split; [intros key default; by rewrite get_outcome, Hdata|].
  split; [intros key; by rewrite exists_outcome, Hdata|].
  destruct st as [[path d0] w]. simpl in Hd. subst d0.
  unfold clear, bind, get_self, of_outcome, set_data, ret; simpl.
  destruct (_save_data env _) as [[[]|e] st1] eqn:E;
    cbn [fst snd self file_path os]; [|done].
  intros _.
  apply save_data_returns in E
    as (temp & bytes & _ & Hb & _ & Hf & Hc & _).
  cbn [fst snd self file_path os data] in *.
  split; [|eauto].
  etrans; [exact Hf|]. f_equal. by inversion Hb.
Qed.

(** ** [set], [get] and [exists] *)

(** X2.  On an instance whose data is a mapping, after [set(key, v)],
    returned or raised, [get(key, default)] returns [v] whatever the
    default and [exists(key)] returns [True]. *)
Theorem get_after_set (env : environment) (key : str)
    (v default : value float) (d : dict float) (st : state float) :
  data (self st) = VDict d ->
  (get key default (set env key v st).2).1 = Return v
  /\ (exists_ key (set env key v st).2).1 = Return true.
Proof.
  intros Hd. rewrite get_outcome, exists_outcome, set_data_after, Hd.
  simpl. unfold dict_contains. rewrite dict_get_setitem.
  by destruct (decide (key = key)).
Qed.

(** X3.  [delete] of a key leaves what [get] and [exists] return for
    any other key as it was, whatever the state and whether or not the
    call returns. *)
Theorem delete_leaves_other_keys (env : environment) (key key' : str)
    (default : value float) (st : state float) :
  key <> key' ->
  (get key' default (delete env key st).2).1 = (get key' default st).1
  /\ (exists_ key' (delete env key st).2).1 = (exists_ key' st).1.
Proof.
  intros Hne. rewrite !get_outcome, !exists_outcome, delete_data_after.
  destruct (data (self st)) as [| | | | | |d]; try done.
  destruct (dict_contains d key); [|done].
  simpl. unfold dict_contains. by rewrite dict_get_delitem_ne.
Qed.

(** X4.  On an instance whose data is a mapping, after [delete(key)],
    returned or raised, [get(key, default)] returns the default and
    [exists(key)] returns [False]. *)
Theorem get_after_delete (env : environment) (key : str)
    (default : value float) (d : dict float) (st : state float) :
  data (self st) = VDict d ->
  NoDup d.*1 ->
  (get key default (delete env key st).2).1 = Return default
  /\ (exists_ key (delete env key st).2).1 = Return false.
Proof.
  intros Hd Hnd. rewrite get_outcome, exists_outcome, delete_data_after, Hd.
  assert (Habsent := dict_delitem_absent d key Hnd).
  destruct (dict_contains d key) eqn:Hc; simpl.
  - rewrite Habsent. unfold dict_contains in Habsent.
    by destruct (dict_get (dict_delitem d key) key).
  - rewrite Hc. unfold dict_contains in Hc.
    by destruct (dict_get d key).
Qed.

(** X5.  A call of [set] that raised can be made again: when the
    second call returns, the mapping is what the first call left and the
    backing file holds it. *)
Theorem set_again_reconciles (env env' : environment) (key : str)
    (v : value float) (e : exception) (st st1 st2 : state float) :
  representable (data (self st)) -> representable v ->
  set env key v st = (Raise e, st1) ->
  set env' key v st1 = (Return tt, st2) ->
  data (self st2) = data (self st1) /\ in_sync st2.
Proof.
  intros Hrep Hv H1 H2.
  assert (Hd1 := set_data_after env key v st). rewrite H1 in Hd1.
  simpl in Hd1.
  destruct (set_returns _ _ _ _ _ H2) as (d1 & temp & bytes & Hd & Hs & _).
  assert (Hrep1 : representable (data (self st1))).
  { rewrite Hd1. destruct (data (self st)) as [| | | | | |d]; try done.
    by apply representable_setitem. }
  split.
  - rewrite Hs, Hd. simpl. rewrite Hd in Hd1.
    destruct (data (self st)) as [| | | | | |d]; try done.
    inversion Hd1; subst. by rewrite dict_setitem_idempotent.
  - apply (run_mutation_returns env' (SetCall key v) st1 st2 Hrep1 Hv).
    unfold run_mutation, bind. by rewrite H2.
Qed.

(** ** [update] and [set] *)

(** The entries that calls of [set] store, in turn. *)
Definition entries (steps : list (environment * str * value float))
    : dict float :=
  map (fun c => (c.1.2, c.2)) steps.

Lemma update_returns (env : environment) (updates d : dict float)
    (st st' : state float) :
  data (self st) = VDict d ->
  update env updates st = (Return tt, st') ->
  exists temp bytes,
    self st' = mkDatabase (file_path (self st)) (VDict (dict_update d updates))
    /\ utf8_encode (dumps (VDict (dict_update d updates))) = Some bytes
    /\ files (os st') !! file_path (self st) = Some bytes
    /\ calls (os st')
       = calls (os st) ++ [OpenWrite temp; Replace temp (file_path (self st))].
Proof.
  destruct st as [[path d0] w]. simpl. intros ->.
  unfold update, bind, get_self, of_outcome, set_data, ret; simpl.
  destruct (_save_data env _) as [[[]|e] st1] eqn:E; [|done].
  intros [= <-].
  apply save_data_returns in E
    as (temp & bytes & Ht & Hb & Hs & Hf & Hc & _). simpl in *.
  exists temp, bytes. by rewrite Hs.
Qed.

Lemma set_all_returns (steps : list (environment * str * value float)) :
  forall (st st' : state float) (d : dict float),
    data (self st) = VDict d ->
    set_all steps st = (Return tt, st') ->
    self st'
    = mkDatabase (file_path (self st)) (VDict (dict_update d (entries steps)))
    /\ length (calls (os st'))
       = (length (calls (os st)) + 2 * length steps)%nat
    /\ (steps <> [] ->
        exists bytes,
          utf8_encode (dumps (VDict (dict_update d (entries steps))))
          = Some bytes
          /\ files (os st') !! file_path (self st) = Some bytes).
Proof.
  induction steps as [|[[env key] v] steps IH]; intros st st' d Hd.
  - intros [= <-]. simpl. split; [|split; [lia|done]].
    destruct st as [[path d0] w]. simpl in *. by subst.
  - simpl. unfold bind at 1.
    destruct (set env key v st) as [[[]|e] st1] eqn:Hset; [|done].
    intros Hrest.
    destruct (set_returns _ _ _ _ _ Hset)
      as (d0 & temp & bytes & Hd0 & Hs & _ & Hb & Hf & Hc).
    assert (d0 = d) as -> by congruence.
    assert (Hd1 : data (self st1) = VDict (dict_setitem d key v))
      by (by rewrite Hs).
    destruct (IH st1 st' _ Hd1 Hrest) as (Hself & Hlen & Hfile).
    assert (Hp : file_path (self st1) = file_path (self st))
      by (by rewrite Hs).
    rewrite Hp in Hself, Hfile.
    split; [exact Hself|]. split.
    { rewrite Hlen, Hc, length_app. simpl. lia. }
    intros _. destruct steps as [|step steps].
    + simpl in Hrest. inversion Hrest; subst. simpl. eauto.
    + by apply Hfile.
Qed.

(** X6.  When the calls of [set] for some entries, one at least, all
    return, and [update] with the same entries returns from the same
    state, both leave the same instance and the same backing file;
    [set] has written and renamed once for each entry, and [update]
    once in all. *)
Theorem update_agrees_with_sets (env : environment)
    (steps : list (environment * str * value float)) (d : dict float)
    (st st1 st2 : state float) :
  data (self st) = VDict d ->
  steps <> [] ->
  set_all steps st = (Return tt, st1) ->
  update env (entries steps) st = (Return tt, st2) ->
  self st2 = self st1
  /\ files (os st2) !! file_path (self st)
     = files (os st1) !! file_path (self st)
  /\ length (calls (os st1)) = (length (calls (os st)) + 2 * length steps)%nat
  /\ length (calls (os st2)) = (length (calls (os st)) + 2)%nat.
Proof.
  intros Hd Hne Hsets Hup.
  destruct (set_all_returns steps st st1 d Hd Hsets) as (Hs1 & Hlen & Hfile).
  destruct (Hfile Hne) as (bytes1 & Hb1 & Hf1).
  destruct (update_returns env _ d st st2 Hd Hup)
    as (temp & bytes2 & Hs2 & Hb2 & Hf2 & Hc2).
  split; [congruence|]. split; [congruence|]. split; [done|].
  rewrite Hc2, length_app. simpl. lia.
Qed.

(** ** The constructor *)

(** X7.  Whatever the outcome, the constructor leaves every file as it
    is: it calls [mkdir] on the parent and at most opens the backing
    file for reading; and it prints nothing, or the one warning when it
    returns an instance with the empty mapping. *)
Theorem init_never_writes (env : environment) (path : Path) (w : world) :
  files (__init__ (float:=float) env path w).2 = files w
  /\ (calls (__init__ (float:=float) env path w).2
      = calls w ++ [Mkdir (parent path)]
      \/ calls (__init__ (float:=float) env path w).2
         = calls w ++ [Mkdir (parent path); OpenRead path])
  /\ (stdout (__init__ (float:=float) env path w).2 = stdout w
      \/ (stdout (__init__ (float:=float) env path w).2
          = stdout w ++ [warning path]
          /\ (__init__ (float:=float) env path w).1
             = Return (mkDatabase path (VDict [])))).
Proof.
  unfold __init__, _ensure_directory_exists, mkdir, load_data, try_except,
    bind, read_bytes, of_outcome, print, ret; simpl.
  destruct (mkdir_error env); simpl; [auto|].
  destruct (read_error env) as [e|]; simpl.
  { destruct e; simpl; rewrite <- app_assoc; auto. }
  destruct (files w !! path) as [bytes|]; simpl;
    [|rewrite <- app_assoc; auto].
  destruct (json_load bytes) as [v|e]; simpl; [rewrite <- app_assoc; auto|].
  destruct e as [[]|p c| | | | | | | |]; simpl; rewrite <- app_assoc; auto.
Qed.

(** X8.  The constructor makes the parent directory before anything
    else, and when that fails it raises the failure without opening
    the backing file. *)
Theorem init_mkdir_failure (env : environment) (path : Path) (w : world)
    (e : os_error) :
  mkdir_error env = Some e ->
  __init__ (float:=float) env path w
  = (Raise (OSError e), log (Mkdir (parent path)) w).
Proof.
  intros He.
  unfold __init__, _ensure_directory_exists, mkdir, bind. by rewrite He.
Qed.

(** ** [_save_data] and the files *)

(** X9.  [_save_data] changes no file but the temporary file and the
    backing file, whatever its outcome; and when it returns, there is no
    temporary file left (where it is not the backing file itself). *)
Theorem save_data_touches_only_its_files (env : environment)
    (st : state float) (temp : Path) :
  with_suffix (file_path (self st)) ".tmp" = Some temp ->
  (forall p, p <> temp -> p <> file_path (self st) ->
     files (os (_save_data env st).2) !! p = files (os st) !! p)
  /\ ((_save_data env st).1 = Return tt -> temp <> file_path (self st) ->
      files (os (_save_data env st).2) !! temp = None).
Proof.
  destruct st as [[path d] w]. simpl. intros Ht.
  unfold_save_data. rewrite Ht; simpl.
  destruct (open_write_error env); simpl; [by split|].
  destruct (write_chunks (iterencode_chunks 0 d)) as [bytes encoded].
  destruct (write_error env) as [e|], bytes as [|b bytes], encoded; simpl.
  all: try (split; [|done]; intros p Hp _; by rewrite lookup_insert_ne).
  all: destruct (replace_error env); simpl; rewrite ?lookup_insert_eq; simpl.
  all: try (split; [|done]; intros p Hp _; by rewrite lookup_insert_ne).
  all: split;
    [intros p Hp Hp';
     by rewrite lookup_insert_ne, lookup_delete_ne, lookup_insert_ne
    |intros _ Hne; by rewrite lookup_insert_ne, lookup_delete_eq].
Qed.

(** ** Data that is no mapping *)

(** X10.  On an instance whose data is a list, as after a backing file
    holding a JSON array was loaded, [get] and [update] raise
    [AttributeError] and [set] raises [TypeError], each leaving the
    instance and the world as they were; [exists] and [delete] look for
    the key among the items, and [delete] raises [TypeError] when it is
    one. *)
Theorem accessors_on_list_data (env : environment) (key : str)
    (v default : value float) (updates : dict float)
    (l : list (value float)) (st : state float) :
  data (self st) = VList l ->
  get key default st = (Raise AttributeError, st)
  /\ set env key v st = (Raise TypeError, st)
  /\ update env updates st = (Raise AttributeError, st)
  /\ exists found : bool,
       (found = true <-> VStr key ∈ l)
       /\ exists_ key st = (Return found, st)
       /\ delete env key st
          = (if found then Raise TypeError else Return false, st).
Proof.
  destruct st as [[path d] w]. simpl. intros ->.
  set (found := existsb (fun x => match x with
                                  | VStr s => bool_decide (s = key)
                                  | _ => false
                                  end) l).
  assert (Hin : found = true <-> VStr key ∈ l).
  { subst found. rewrite existsb_exists. split.
    - intros (x & Hx & Hs). apply list_elem_of_In in Hx.
      destruct x as [|b|n|f|s|l'|d]; try done.
      apply bool_decide_eq_true in Hs. by subst.
    - intros Hx. exists (VStr key). split; [by apply list_elem_of_In|].
      by apply bool_decide_eq_true. }
  unfold get, set, update, exists_, delete, bind, get_self, of_outcome,
    set_data, ret; simpl.
  fold found. repeat split. exists found. repeat split; try apply Hin.
  by destruct found.
Qed.

(** ** Failures of the save that are not failures of the disk *)

(** X11.  When the document cannot be encoded as UTF-8 (a lone surrogate
    in a string) and the disk takes what is written, [set] raises the
    [UnicodeEncodeError] as it is, not an [IOError]; the mapping keeps
    the new value, the temporary file is left with the chunks written
    before the one that failed, nothing is renamed, and a backing file
    that is not the temporary file itself is as it was. *)
Theorem set_unencodable_raises_unwrapped (env : environment) (key : str)
    (v : value float) (d : dict float) (st : state float) (temp : Path) :
  data (self st) = VDict d ->
  with_suffix (file_path (self st)) ".tmp" = Some temp ->
  open_write_error env = None ->
  write_error env = None ->
  utf8_encode (dumps (VDict (dict_setitem d key v))) = None ->
  (set env key v st).1 = Raise UnicodeEncodeError
  /\ data (self (set env key v st).2) = VDict (dict_setitem d key v)
  /\ calls (os (set env key v st).2) = calls (os st) ++ [OpenWrite temp]
  /\ files (os (set env key v st).2) !! temp
     = Some (write_chunks
               (iterencode_chunks 0 (VDict (dict_setitem d key v)))).1
  /\ (temp <> file_path (self st) ->
      files (os (set env key v st).2) !! file_path (self st)
      = files (os st) !! file_path (self st)).
Proof.
  destruct st as [[path d0] w]. simpl. intros -> Ht Hopen Hwrite Henc.
  unfold set, bind, get_self, of_outcome, set_data, ret; simpl.
  rewrite (save_data_unencodable env
             (State (mkDatabase path (VDict (dict_setitem d key v))) w) temp)
    by done.
  cbn [fst snd self os data files calls set_file log].
  rewrite lookup_insert_eq.
  repeat split. intros Hne. by rewrite lookup_insert_ne.
Qed.

(** ** After a failed save *)

(** X12.  When [delete] of a key that is there fails to save, the key is
    gone from memory all the same: [delete] called again returns
    [False] and writes nothing, so the backing file (where it is not the
    temporary file itself) still is what it was before the first
    call. *)
Theorem failed_delete_is_not_saved_by_retry (env env' : environment)
    (key : str) (d : dict float) (st : state float) (temp : Path)
    (bytes : list N) (e : os_error) :
  data (self st) = VDict d ->
  NoDup d.*1 ->
  dict_contains d key = true ->
  with_suffix (file_path (self st)) ".tmp" = Some temp ->
  temp <> file_path (self st) ->
  utf8_encode (dumps (VDict (dict_delitem d key))) = Some bytes ->
  open_write_error env = None ->
  write_error env = Some e
  \/ (write_error env = None /\ replace_error env = Some e) ->
  (delete env key st).1 = Raise (IOError (file_path (self st)) (OSError e))
  /\ delete env' key (delete env key st).2
     = (Return false, (delete env key st).2)
  /\ data (self (delete env key st).2) = VDict (dict_delitem d key)
  /\ files (os (delete env key st).2) !! file_path (self st)
     = files (os st) !! file_path (self st).
Proof.
  intros Hd Hnd Hc Ht Hne Hb Hopen Hfail.
  assert (Hdata : data (self (delete env key st).2)
                  = VDict (dict_delitem d key)).
  { by rewrite delete_data_after, Hd, Hc. }
  assert (Hagain : delete env' key (delete env key st).2
                   = (Return false, (delete env key st).2)).
  { eapply delete_absent; [exact Hdata|]. by apply dict_delitem_absent. }
  rewrite (delete_present env key d st Hd Hc) in *.
  destruct (save_data_fails env
              (State (mkDatabase (file_path (self st))
                        (VDict (dict_delitem d key))) (os st))
              temp bytes e Ht Hb (dumps_dict_nonempty _ _ Hb) Hopen Hfail)
    as (Hr & _ & Hf).
  specialize (Hf Hne). simpl in Hf.
  destruct (_save_data env _) as [[[]|e'] st1]; simpl in *; [done|].
  repeat split; try done. congruence.
Qed.

(** X13.  When [set] fails to save on an instance that was in agreement
    with its backing file (which is not the temporary file itself), the
    mapping in memory has the new value, and an instance made afterwards
    on the same path has the old data: what is left of the temporary
    file is not read. *)
Theorem failed_set_is_lost_on_restart (env env2 : environment) (key : str)
    (v : value float) (d : dict float) (st : state float) (temp : Path)
    (bytes : list N) (e : os_error) :
  in_sync st ->
  data (self st) = VDict d ->
  with_suffix (file_path (self st)) ".tmp" = Some temp ->
  temp <> file_path (self st) ->
  utf8_encode (dumps (VDict (dict_setitem d key v))) = Some bytes ->
  open_write_error env = None ->
  write_error env = Some e
  \/ (write_error env = None /\ replace_error env = Some e) ->
  mkdir_error env2 = None -> read_error env2 = None ->
  data (self (set env key v st).2) = VDict (dict_setitem d key v)
  /\ (__init__ env2 (file_path (self st)) (os (set env key v st).2)).1
     = Return (self st).
Proof.
  intros (bytes0 & Hf0 & Hl0) Hd Ht Hne Hb Hopen Hfail Hmk Hrd.
  destruct (set_persist_failure env key v d st temp bytes e
              Hd Ht Hb Hopen Hfail) as (_ & Hdata & Hf).
  split; [exact Hdata|].
  specialize (Hf Hne).
  assert (Hf1 : files (os (set env key v st).2) !! file_path (self st)
                = Some bytes0) by (etrans; [exact Hf | exact Hf0]).
  rewrite (init_reads _ _ _ _ Hmk Hrd Hf1), Hl0. simpl.
  by destruct (self st).
Qed.

End More.

(** ** The further properties at concrete inputs *)

(** The instance made where there was no file, before any call. *)
Definition opened_store : state str :=
  State (mkDatabase settings_path (VDict [])) opened_world.

(** An environment whose [mkdir] is refused. *)
Definition no_permission : environment :=
  Environment (Some EACCES) None None None 0 None.

(** An instance whose data is the list of [list_text]. *)
Definition list_store : state str :=
  State (mkDatabase settings_path (VList [VInt 1; VInt 2])) empty_world.

(** A string that is one lone surrogate. *)
Definition lone_surrogate : value str := VStr [55296].

Lemma two_keys_NoDup : NoDup two_keys.*1.
Proof.
  repeat constructor; vm_compute; intros H; inversion H as [|? ? ? H'];
    subst; inversion H'.
Defined.

Lemma clear_witness :
  data (self (clear no_fault settings_store).2) = VDict []
  /\ (forall key default,
        (get key default (clear no_fault settings_store).2).1 = Return default)
  /\ (forall key, (exists_ key (clear no_fault settings_store).2).1
                  = Return false)
  /\ ((clear no_fault settings_store).1 = Return tt ->
      files (os (clear no_fault settings_store).2)
        !! file_path (self settings_store) = Some (lit "{}")
      /\ exists temp,
           calls (os (clear no_fault settings_store).2)
           = calls (os settings_store)
             ++ [OpenWrite temp;
                 Replace temp (file_path (self settings_store))]).
Proof.
  apply (clear_empties_and_persists no_fault two_keys settings_store).
  reflexivity.
Defined.

Lemma get_after_set_witness :
  (get theme VNone (set disk_full theme dark opened_store).2).1 = Return dark
  /\ (exists_ theme (set disk_full theme dark opened_store).2).1 = Return true.
Proof.
  apply (get_after_set disk_full theme dark VNone [] opened_store).
  reflexivity.
Defined.

Lemma delete_leaves_other_keys_witness :
  (get theme VNone (delete no_fault volume settings_store).2).1
  = (get theme VNone settings_store).1
  /\ (exists_ theme (delete no_fault volume settings_store).2).1
     = (exists_ theme settings_store).1.
Proof.
  apply (delete_leaves_other_keys no_fault volume theme VNone settings_store).
  vm_compute. discriminate.
Defined.

Lemma get_after_delete_witness :
  (get volume VNone (delete disk_full volume settings_store).2).1 = Return VNone
  /\ (exists_ volume (delete disk_full volume settings_store).2).1
     = Return false.
Proof.
  apply (get_after_delete disk_full volume VNone two_keys settings_store).
  - reflexivity.
  - exact two_keys_NoDup.
Defined.

Lemma update_agrees_with_sets_witness :
  self (update no_fault (entries two_sets) opened_store).2
  = self after_two_sets
  /\ files (os (update no_fault (entries two_sets) opened_store).2)
       !! file_path (self opened_store)
     = files (os after_two_sets) !! file_path (self opened_store)
  /\ length (calls (os after_two_sets))
     = (length (calls (os opened_store)) + 2 * length two_sets)%nat
  /\ length (calls (os (update no_fault (entries two_sets) opened_store).2))
     = (length (calls (os opened_store)) + 2)%nat.
Proof.
  apply (update_agrees_with_sets no_fault two_sets [] opened_store
           after_two_sets
           (update no_fault (entries two_sets) opened_store).2).
  - reflexivity.
  - discriminate.
  - vm_compute. reflexivity.
  - vm_compute. reflexivity.
Defined.

Lemma init_mkdir_failure_witness :
  __init__ (float:=str) no_permission settings_path empty_world
  = (Raise (OSError EACCES), log (Mkdir (parent settings_path)) empty_world).
Proof.
  apply (init_mkdir_failure no_permission settings_path empty_world EACCES).
  reflexivity.
Defined.

Lemma save_data_files_witness :
  (forall p, p <> settings_temp -> p <> file_path (self settings_store) ->
     files (os (_save_data no_fault settings_store).2) !! p
     = files (os settings_store) !! p)
  /\ ((_save_data no_fault settings_store).1 = Return tt ->
      settings_temp <> file_path (self settings_store) ->
      files (os (_save_data no_fault settings_store).2) !! settings_temp
      = None).
Proof.
  apply (save_data_touches_only_its_files no_fault settings_store
           settings_temp).
  vm_compute. reflexivity.
Defined.

Lemma set_again_witness :
  data (self (set no_fault theme dark (set disk_full theme dark opened_store).2).2)
  = data (self (set disk_full theme dark opened_store).2)
  /\ in_sync (set no_fault theme dark (set disk_full theme dark opened_store).2).2.
Proof.
  apply (set_again_reconciles disk_full no_fault theme dark
           (IOError settings_path (OSError ENOSPC)) opened_store).
  - exact representable_empty.
  - constructor.
  - vm_compute. reflexivity.
  - vm_compute. reflexivity.
Defined.

Lemma accessors_on_list_witness :
  get theme VNone list_store = (Raise AttributeError, list_store)
  /\ set no_fault theme dark list_store = (Raise TypeError, list_store)
  /\ update no_fault two_keys list_store = (Raise AttributeError, list_store)
  /\ exists found : bool,
       (found = true <-> VStr theme ∈ [VInt (float:=str) 1; VInt 2])
       /\ exists_ theme list_store = (Return found, list_store)
       /\ delete no_fault theme list_store
          = (if found then Raise TypeError else Return false, list_store).
Proof.
  apply (accessors_on_list_data no_fault theme dark VNone two_keys
           [VInt 1; VInt 2] list_store).
  reflexivity.
Defined.

Lemma set_unencodable_witness :
  (set no_fault theme lone_surrogate settings_store).1
  = Raise UnicodeEncodeError
  /\ data (self (set no_fault theme lone_surrogate settings_store).2)
     = VDict (dict_setitem two_keys theme lone_surrogate)
  /\ calls (os (set no_fault theme lone_surrogate settings_store).2)
     = calls (os settings_store) ++ [OpenWrite settings_temp]
  /\ files (os (set no_fault theme lone_surrogate settings_store).2)
       !! settings_temp
     = utf8_encode
         (lit "{" ++ newline_indent 1 ++ encode_basestring theme ++ lit ": ")
  /\ files (os (set no_fault theme lone_surrogate settings_store).2)
       !! file_path (self settings_store)
     = files (os settings_store) !! file_path (self settings_store).
Proof.
  destruct (set_unencodable_raises_unwrapped no_fault theme lone_surrogate
              two_keys settings_store settings_temp)
    as (Hraise & Hdata & Hcalls & Htemp & Hfile).
  - reflexivity.
  - vm_compute. reflexivity.
  - reflexivity.
  - reflexivity.
  - vm_compute. reflexivity.
  - split; [exact Hraise|]. split; [exact Hdata|]. split; [exact Hcalls|].
    split.
    + etrans; [exact Htemp|]. vm_compute. reflexivity.
    + apply Hfile. vm_compute. discriminate.
Defined.

Lemma failed_delete_witness :
  (delete disk_full volume settings_store).1
  = Raise (IOError (file_path (self settings_store)) (OSError ENOSPC))
  /\ delete no_fault volume (delete disk_full volume settings_store).2
     = (Return false, (delete disk_full volume settings_store).2)
  /\ data (self (delete disk_full volume settings_store).2)
     = VDict (dict_delitem two_keys volume)
  /\ files (os (delete disk_full volume settings_store).2)
       !! file_path (self settings_store)
     = files (os settings_store) !! file_path (self settings_store).
Proof.
  apply (failed_delete_is_not_saved_by_retry disk_full no_fault volume
           two_keys settings_store settings_temp
           (write_chunks
              (iterencode_chunks 0 (VDict (dict_delitem two_keys volume)))).1
           ENOSPC).
  - reflexivity.
  - exact two_keys_NoDup.
  - vm_compute. reflexivity.
  - vm_compute. reflexivity.
  - vm_compute. discriminate.
  - vm_compute. reflexivity.
  - reflexivity.
  - left. reflexivity.
Defined.

Lemma failed_set_witness :
  data (self (set disk_full theme (VStr (lit "light")) after_two_sets).2)
  = VDict (dict_setitem two_keys theme (VStr (lit "light")))
  /\ (__init__ no_fault (file_path (self after_two_sets))
        (os (set disk_full theme (VStr (lit "light")) after_two_sets).2)).1
     = Return (self after_two_sets).
Proof.
  apply (failed_set_is_lost_on_restart disk_full no_fault theme
           (VStr (lit "light")) two_keys after_two_sets settings_temp
           (write_chunks
              (iterencode_chunks 0
                 (VDict (dict_setitem two_keys theme (VStr (lit "light")))))).1
           ENOSPC).
  - exists (write_chunks (iterencode_chunks 0 (VDict two_keys))).1.
    split; vm_compute; reflexivity.
  - vm_compute. reflexivity.
  - vm_compute. reflexivity.
  - vm_compute. discriminate.
  - vm_compute. reflexivity.
  - reflexivity.
  - left. reflexivity.
  - reflexivity.
  - reflexivity.
Defined.
